(** * exceptiongroup: specialization and matching of [ExceptionGroup]

    A shallow embedding of [exceptiongroup/_exception_group.py]: the metaclass
    [ExceptionGroupMeta] (specialization cache, subscript entry point and the
    subclass check used by [except] clauses) and the class [ExceptionGroup]
    (construction, validation and copy).

    Classes created by the metaclass are objects with identity, so they live
    in a store and are referred to by address; [_specs_cache] is the
    dictionary shared through the [ExceptionGroup] class attribute. *)

From stdpp Require Import base option list strings gmap sets countable.

(** ** The surrounding class hierarchy

    The classes that exist outside this module (builtin and user exception
    classes, but also [str], [int], ...) are a parameter: a countable type of
    classes with Python's [issubclass] on them.  [ExceptionGroup] classes
    nested as members of another group are not covered by this interface. *)

Class Hierarchy (Cls : Type) `{Countable Cls} := {
  issubclass : Cls → Cls → bool;
  BaseException : Cls;
  Exception : Cls;
  cls__name__ : Cls → string;
  issubclass_refl : ∀ c, issubclass c c = true;
  issubclass_trans : ∀ a b c,
    issubclass a b = true → issubclass b c = true → issubclass a c = true;
  Exception_BaseException : issubclass Exception BaseException = true;
}.

(** ** A concrete hierarchy: some builtin classes of Python *)

Module Builtins.

Inductive builtin :=
  | object | str | int
  | BaseException_ | KeyboardInterrupt | Exception_
  | ArithmeticError | ZeroDivisionError
  | LookupError | KeyError | IndexError_
  | RuntimeError | TypeError_ | ValueError_.

(** [cls.__base__] *)
Definition base (c : builtin) : option builtin :=
  match c with
  | object => None
  | str | int | BaseException_ => Some object
  | KeyboardInterrupt | Exception_ => Some BaseException_
  | ArithmeticError | LookupError | RuntimeError | TypeError_ | ValueError_ =>
      Some Exception_
  | ZeroDivisionError => Some ArithmeticError
  | KeyError | IndexError_ => Some LookupError
  end.

#[export] Instance builtin_eq_dec : EqDecision builtin.
Proof. solve_decision. Defined.

Definition builtin_index (c : builtin) : nat :=
  match c with
  | object => 0 | str => 1 | int => 2
  | BaseException_ => 3 | KeyboardInterrupt => 4 | Exception_ => 5
  | ArithmeticError => 6 | ZeroDivisionError => 7
  | LookupError => 8 | KeyError => 9 | IndexError_ => 10
  | RuntimeError => 11 | TypeError_ => 12 | ValueError_ => 13
  end.

Definition all_builtins : list builtin :=
  [ object; str; int; BaseException_; KeyboardInterrupt; Exception_;
    ArithmeticError; ZeroDivisionError; LookupError; KeyError; IndexError_;
    RuntimeError; TypeError_; ValueError_ ].

#[export] Instance builtin_countable : Countable builtin.
Proof.
  refine (inj_countable builtin_index (λ n, all_builtins !! n) _).
  by intros [].
Defined.

(** Walk up [__base__]; the hierarchy is five classes deep. *)
Fixpoint issubclass_fuel (fuel : nat) (a b : builtin) : bool :=
  bool_decide (a = b) ||
  match fuel, base a with
  | S fuel', Some p => issubclass_fuel fuel' p b
  | _, _ => false
  end.

Definition builtin_issubclass : builtin → builtin → bool := issubclass_fuel 5.

Definition builtin_name (c : builtin) : string :=
  match c with
  | object => "object" | str => "str" | int => "int"
  | BaseException_ => "BaseException" | KeyboardInterrupt => "KeyboardInterrupt"
  | Exception_ => "Exception"
  | ArithmeticError => "ArithmeticError" | ZeroDivisionError => "ZeroDivisionError"
  | LookupError => "LookupError" | KeyError => "KeyError" | IndexError_ => "IndexError"
  | RuntimeError => "RuntimeError" | TypeError_ => "TypeError"
  | ValueError_ => "ValueError"
  end.

#[export] Program Instance builtin_hierarchy : Hierarchy builtin := {|
  issubclass := builtin_issubclass;
  BaseException := BaseException_;
  Exception := Exception_;
  cls__name__ := builtin_name;
|}.
Next Obligation. by intros []. Qed.
Next Obligation. intros [] [] []; vm_compute; congruence. Qed.
Next Obligation. done. Qed.

End Builtins.

(** ** Python objects seen by this module *)

Section exceptiongroup.
Context {Cls : Type} `{Hierarchy Cls}.

(** Addresses of the classes [ExceptionGroupMeta] has created. *)
Definition addr := nat.

(** A class is either one of the store or one of the hierarchy. *)
Inductive pyclass :=
  | GroupClass (a : addr)
  | PlainClass (c : Cls).

(** An object that is not a class: its runtime class [type(x)] and its
    [repr]. Members of [exceptions] are such objects. *)
Record value := Value { type : Cls; repr : string }.

(** An object offered as a specialization: [...], a class of the
    hierarchy, or anything else (which is not a class). *)
Inductive pyobj :=
  | Ellipsis
  | ClassObj (c : Cls)
  | Other (v : value).

(** What may be written between the brackets of [cls[item]]: one object or
    a tuple of objects ([type(item) is tuple]).  A tuple nested in a tuple is
    an [Other] child. *)
Inductive subscript :=
  | Single (o : pyobj)
  | Tuple (children : list pyobj).

(** The hashable elements of a validated specialization tuple: [...] or an
    exception class. *)
Inductive spec :=
  | Open
  | Kind (c : Cls).

#[export] Instance pyclass_eq_dec : EqDecision pyclass.
Proof. solve_decision. Defined.
#[export] Instance spec_eq_dec : EqDecision spec.
Proof. solve_decision. Defined.
#[export] Instance spec_countable : Countable spec.
Proof.
  refine (inj_countable' (λ x, match x with Open => None | Kind c => Some c end)
                         (λ o, match o with None => Open | Some c => Kind c end) _).
  by intros [].
Defined.

(** ** Results of calls *)

(** The [TypeError]s this module raises or lets through, by raise site. *)
Inductive type_error :=
  | AlreadySpecialized        (* "Cannot specialize already specialized ..." *)
  | ExpectedSubclass          (* "expected a BaseException subclass, not ..." *)
  | ExpectedTupleOfSubclasses (* "expected a tuple of BaseException subclasses, not ..." *)
  | IssubclassArg1            (* builtin: "issubclass() arg 1 must be a class" *)
  | NotIterable               (* builtin: "'NoneType' object is not iterable" *)
  | EmptySpecialisation       (* "specialisation of ... does not match empty exceptions" *)
  | ExpectedExceptionObject (exc : value). (* "Expected an exception object, not ..." *)

Inductive exn :=
  | TypeError (why : type_error)
  | ValueError (n_sources n_exceptions : nat)
  | IndexError  (* [bases[0]] of an empty tuple *)
  | Dangling.   (* an address outside the store; not a Python behaviour *)

Inductive result (A : Type) :=
  | Ok (a : A)
  | Raise (e : exn).
#[global] Arguments Ok {A} a.
#[global] Arguments Raise {A} e.

#[export] Instance result_ret : MRet result := λ A, Ok.
#[export] Instance result_bind : MBind result := λ A B k r,
  match r with
  | Ok a => k a
  | Raise e => Raise e
  end.

(** [all(f(x) for x in l)]: stops at the first false; an exception raised
    by [f] propagates. *)
Fixpoint all_gen {A} (f : A → result bool) (l : list A) : result bool :=
  match l with
  | [] => Ok true
  | x :: l' => f x ≫= λ b : bool, if b then all_gen f l' else Ok false
  end.

(** ** Class objects and the store *)

(** The fields [ExceptionGroupMeta.__new__] sets on a class. *)
Record group_class := GroupCls {
  __name__ : string;
  __bases__ : list pyclass;
  base_case : pyclass;
  inclusive : bool;
  specializations : option (list Cls);
}.

(** The classes created so far (a class's address is its index) and the
    dictionary [ExceptionGroup._specs_cache], found through the class attribute
    by every class deriving from [ExceptionGroup].  The dictionary holds its
    values weakly: an entry may go once nothing else refers to its class (see
    [reachable] below). *)
Record state := State {
  classes : list group_class;
  _specs_cache : gmap (gset spec) addr;
}.

(** Calls that read or change the store and may raise. *)
Definition M (A : Type) : Type := state → result A * state.

#[export] Instance M_ret : MRet M := λ A a s, (Ok a, s).
#[export] Instance M_bind : MBind M := λ A B k m s,
  match m s with
  | (Ok a, s') => k a s'
  | (Raise e, s') => (Raise e, s')
  end.

Definition raise {A} (e : exn) : M A := λ s, (Raise e, s).
Definition lift {A} (r : result A) : M A := λ s, (r, s).
Definition get_state : M state := λ s, (Ok s, s).

Definition deref (h : list group_class) (a : addr) : result group_class :=
  match h !! a with
  | Some c => Ok c
  | None => Raise Dangling
  end.

(** The interpreter's own subclass test ([PyType_IsSubtype], which
    [type.__call__] uses and no metaclass hook changes): [b] is [a] or is
    reached from [a] through [__bases__].  A path that repeats no class has
    fewer steps than the store has classes, which bounds the search. *)
Fixpoint derives_fuel (fuel : nat) (h : list group_class) (a b : addr) : bool :=
  bool_decide (a = b) ||
  match fuel with
  | 0 => false
  | S fuel' =>
      match h !! a with
      | Some c =>
          existsb (λ base,
                     match base with
                     | GroupClass p => derives_fuel fuel' h p b
                     | PlainClass _ => false
                     end) (__bases__ c)
      | None => false
      end
  end.

Definition derives (h : list group_class) (a b : addr) : bool :=
  derives_fuel (length h) h a b.

Definition cache_set (key : gset spec) (a : addr) : M () := λ s,
  (Ok (), State (classes s) (<[key := a]> (_specs_cache s))).

(** ** class ExceptionGroupMeta(type) *)

(** [ExceptionGroupMeta(name, bases, namespace, specializations=..,
    inclusive=..)], that is the metaclass's [__new__]: the new class gets the
    next address. *)
Definition ExceptionGroupMeta (name : string) (bases : list pyclass)
    (specializations : option (list Cls)) (inclusive : bool) : M addr := λ s,
  let cls := length (classes s) in
  let fields :=
    match specializations with
    | Some _ =>
        match bases with
        | base :: _ => Ok (inclusive, base)
        | [] => Raise IndexError
        end
    | None => Ok (true, GroupClass cls)
    end in
  match fields with
  | Ok (inclusive, base_case) =>
      (Ok cls,
       State (classes s ++ [GroupCls name bases base_case inclusive specializations])
             (_specs_cache s))
  | Raise e => (Raise e, s)
  end.

(** [for child in c.specializations]: iterating [None] raises. *)
Definition iter_specializations (c : group_class) : result (list Cls) :=
  match specializations c with
  | Some l => Ok l
  | None => Raise (TypeError NotIterable)
  end.

(** [issubclass(child, classes)] with a tuple as second argument. *)
Definition issubclass_any (child : Cls) (classes : list Cls) : bool :=
  existsb (issubclass child) classes.

Definition _subclasscheck_specialization (cls subclass : group_class) : result bool :=
  cls_specs ← iter_specializations cls;
  matched_specializations ←
    all_gen (λ specialization,
               children ← iter_specializations subclass;
               Ok (existsb (λ child, issubclass child specialization) children))
            cls_specs;
  if negb matched_specializations then Ok false
  else if inclusive cls then Ok true
  else
    children ← iter_specializations subclass;
    Ok (negb (existsb (λ child, negb (issubclass_any child cls_specs)) children)).

(** [issubclass(subclass, cls)] for a class [cls] of the store. *)
Definition __subclasscheck__ (h : list group_class) (cls : addr) (subclass : pyclass)
    : result bool :=
  if decide (subclass = GroupClass cls) then Ok true
  else
    match subclass with
    | PlainClass _ => Ok false (* AttributeError: no [base_case] *)
    | GroupClass sub =>
        sc ← deref h sub;
        c ← deref h cls;
        if decide (base_case sc ≠ base_case c) then Ok false
        else
          match specializations c with
          | None => Ok true
          | Some _ => _subclasscheck_specialization c sc
          end
    end.

(** [isinstance(instance, cls)]; [instance_type] is [type(instance)]. *)
Definition __instancecheck__ (h : list group_class) (cls : addr) (instance_type : pyclass)
    : result bool :=
  __subclasscheck__ h cls instance_type.

(** [issubclass(o, c)] of the builtin, for an arbitrary first argument. *)
Definition issubclass_obj (o : pyobj) (c : Cls) : result bool :=
  match o with
  | ClassObj k => Ok (issubclass k c)
  | _ => Raise (TypeError IssubclassArg1)
  end.

(** [(child is ...) or issubclass(child, BaseException)] *)
Definition check_child (child : pyobj) : result bool :=
  match child with
  | Ellipsis => Ok true
  | _ => issubclass_obj child BaseException
  end.

Definition spec_of (o : pyobj) : option spec :=
  match o with
  | Ellipsis => Some Open
  | ClassObj c => Some (Kind c)
  | Other _ => None
  end.

Definition kind_of (x : spec) : option Cls :=
  match x with
  | Open => None
  | Kind c => Some c
  end.

(** [item] is the validated tuple.  The order in which a frozenset is
    iterated is not specified; [elements] fixes one. *)
Definition _get_specialization (cls : addr) (item : list spec) : M addr :=
  let unique_spec : gset spec := list_to_set item in
  s ← get_state;
  match _specs_cache s !! unique_spec with
  | Some specialized_cls => mret specialized_cls
  | None =>
      let inclusive := bool_decide (Open ∈ unique_spec) in
      let specializations := omap kind_of (elements unique_spec) in
      let spec := String.concat ", " (cls__name__ <$> specializations)
                  +:+ (if inclusive then ", ..." else "") in
      c ← lift (deref (classes s) cls);
      specialized_cls ←
        ExceptionGroupMeta (__name__ c +:+ "[" +:+ spec +:+ "]") [GroupClass cls]
                           (Some specializations) inclusive;
      cache_set unique_spec specialized_cls;;
      mret specialized_cls
  end.

(** [cls[item]].  After the validation every child is [...] or a class, which
    is what [spec_of] keeps. *)
Definition __getitem__ (cls : addr) (item : subscript) : M addr :=
  s ← get_state;
  c ← lift (deref (classes s) cls);
  match specializations c with
  | Some _ => raise (TypeError AlreadySpecialized)
  | None =>
      match item with
      | Single Ellipsis => mret cls
      | Single o =>
          ok ← lift (issubclass_obj o BaseException);
          if ok : bool then _get_specialization cls (omap spec_of [o])
          else raise (TypeError ExpectedSubclass)
      | Tuple children =>
          ok ← lift (all_gen check_child children);
          if ok : bool then _get_specialization cls (omap spec_of children)
          else raise (TypeError ExpectedTupleOfSubclasses)
      end
  end.

(** ** class ExceptionGroup(BaseException, metaclass=ExceptionGroupMeta) *)

(** An instance.  [__cause__], [__context__] and [__traceback__] refer to
    objects owned by the interpreter; only their identity matters here. *)
Record exception_group := ExcGroup {
  __class__ : addr;
  args : string * list value * list string;
  message : string;
  exceptions : list value;
  sources : list string;
  __traceback__ : option nat;
  __context__ : option nat;
  __cause__ : option nat;
  __suppress_context__ : bool;
}.

(** The class of the instance [__new__] returns. *)
Definition __new__ (cls : addr) (message : string) (exceptions : list value)
    (sources : list string) : M addr :=
  s ← get_state;
  c ← lift (deref (classes s) cls);
  match specializations c with
  | Some _ =>
      match exceptions with
      | [] => raise (TypeError EmptySpecialisation)
      | _ :: _ => mret cls
      end
  | None => __getitem__ cls (Tuple ((λ child, ClassObj (type child)) <$> exceptions))
  end.

Definition isinstance (x : value) (c : Cls) : bool := issubclass (type x) c.

(** The loop of [__init__] over [self.exceptions]. *)
Fixpoint check_exceptions (excs : list value) : result () :=
  match excs with
  | [] => Ok ()
  | exc :: excs' =>
      if isinstance exc Exception then check_exceptions excs'
      else Raise (TypeError (ExpectedExceptionObject exc))
  end.

(** [__init__] on a fresh instance of class [self_class]; an instance on
    which it raises is never handed out. *)
Definition __init__ (self_class : addr) (message : string) (exceptions : list value)
    (sources : list string) : result exception_group :=
  check_exceptions exceptions;;
  if decide (length sources ≠ length exceptions)
  then Raise (ValueError (length sources) (length exceptions))
  else Ok {| __class__ := self_class;
             args := (message, exceptions, sources);
             message := message;
             exceptions := exceptions;
             sources := sources;
             __traceback__ := None;
             __context__ := None;
             __cause__ := None;
             __suppress_context__ := false |}.

(** What a call of a class returns: a group on which [__init__] has run, or
    an object of a class on which it has not, which then has the attributes of
    any exception and neither [message], [exceptions] nor [sources]. *)
Inductive instance :=
  | Initialised (g : exception_group)
  | Uninitialised (cls : addr) (tb ctx cause : option nat) (sup : bool).

(** [type(obj)] *)
Definition instance_class (obj : instance) : addr :=
  match obj with
  | Initialised g => __class__ g
  | Uninitialised cls _ _ _ _ => cls
  end.

(** [cls(message, exceptions, sources)], that is [type.__call__]: [__new__],
    then [__init__] on its result when that is an instance of [cls]; when
    [__new__] hands back an object of a class that does not derive from [cls],
    the object is returned as it is. *)
Definition ExceptionGroup_call (cls : addr) (message : string) (exceptions : list value)
    (sources : list string) : M instance :=
  self_class ← __new__ cls message exceptions sources;
  s ← get_state;
  if derives (classes s) self_class cls
  then g ← lift (__init__ self_class message exceptions sources);
       mret (Initialised g)
  else mret (Uninitialised self_class None None None false).

(** Attribute assignments on an exception object.  The interpreter sets
    [__suppress_context__] whenever [__cause__] is assigned. *)
Inductive assignment :=
  | Set__traceback__ (tb : option nat)
  | Set__context__ (exc : option nat)
  | Set__cause__ (exc : option nat)
  | Set__suppress_context__ (b : bool).

Definition setattr (g : exception_group) (a : assignment) : exception_group :=
  let '(ExcGroup cl ar msg excs srcs tb ctx cause sup) := g in
  match a with
  | Set__traceback__ tb' => ExcGroup cl ar msg excs srcs tb' ctx cause sup
  | Set__context__ ctx' => ExcGroup cl ar msg excs srcs tb ctx' cause sup
  | Set__cause__ cause' => ExcGroup cl ar msg excs srcs tb ctx cause' true
  | Set__suppress_context__ sup' => ExcGroup cl ar msg excs srcs tb ctx cause sup'
  end.

(** The assignments of [__copy__], in program order. *)
Definition copy_assignments (self : exception_group) : list assignment :=
  [ Set__traceback__ (__traceback__ self);
    Set__context__ (__context__ self);
    Set__cause__ (__cause__ self);
    Set__suppress_context__ (__suppress_context__ self) ].

(** The same assignments on whatever a call has returned. *)
Definition setattr_obj (obj : instance) (a : assignment) : instance :=
  match obj with
  | Initialised g => Initialised (setattr g a)
  | Uninitialised cl tb ctx cause sup =>
      match a with
      | Set__traceback__ tb' => Uninitialised cl tb' ctx cause sup
      | Set__context__ ctx' => Uninitialised cl tb ctx' cause sup
      | Set__cause__ cause' => Uninitialised cl tb ctx cause' true
      | Set__suppress_context__ sup' => Uninitialised cl tb ctx cause sup'
      end
  end.

Definition __copy__ (self : exception_group) : M instance :=
  new_group ← ExceptionGroup_call (__class__ self) (message self) (exceptions self)
                                  (sources self);
  mret (foldl setattr_obj new_group (copy_assignments self)).

Definition __str__ (self : exception_group) : string :=
  String.concat ", " (repr <$> exceptions self).

Definition __repr__ (self : exception_group) : string :=
  "<ExceptionGroup: " +:+ __str__ self +:+ ">".

(** The module once imported: the class statement has created
    [ExceptionGroup] (at address 0) and its empty [_specs_cache]. *)
Definition ExceptionGroup : addr := 0.

Definition initial_state : state :=
  (ExceptionGroupMeta "ExceptionGroup" [PlainClass BaseException] None true
     (State [] ∅)).2.

(** The states of the module: after the import, after a class statement that
    derives a class from a class of the store ([class Other(ExceptionGroup)]),
    after a subscript, a call or a copy, whatever they returned, and after the
    weak dictionary has dropped an entry. *)
Inductive reachable : state → Prop :=
  | reachable_import : reachable initial_state
  | reachable_class s name bases specializations inclusive b :
      reachable s →
      GroupClass b ∈ bases → is_Some (classes s !! b) →
      reachable (ExceptionGroupMeta name bases specializations inclusive s).2
  | reachable_getitem s cls item :
      reachable s → reachable (__getitem__ cls item s).2
  | reachable_call s cls message exceptions sources :
      reachable s → reachable (ExceptionGroup_call cls message exceptions sources s).2
  | reachable_copy s self :
      reachable s → reachable (__copy__ self s).2
  | reachable_collect s key :
      reachable s → reachable (State (classes s) (delete key (_specs_cache s))).



(** ** The matcher *)

Implicit Types (h : list group_class) (f v c : group_class) (F V : addr).

(** The member kinds of a shape, as the data model of the specification
    sees them: none for the base case. *)
Definition members (c : group_class) : list Cls := default [] (specializations c).

(** A child the subscript accepts: [...] or a subclass of [BaseException]. *)
Definition valid_child (o : pyobj) : bool :=
  match o with
  | Ellipsis => true
  | ClassObj k => issubclass k BaseException
  | Other _ => false
  end.

Definition valid_subscript (item : subscript) : bool :=
  match item with
  | Single o => valid_child o
  | Tuple children => forallb valid_child children
  end.

(** [frozenset(item)] of a tuple of accepted children. *)
Definition frozenset (children : list pyobj) : gset spec :=
  list_to_set (omap spec_of children).

(** Every member is a recognized error value: an instance of [Exception]. *)
Definition all_exceptions (excs : list value) : bool :=
  forallb (λ exc, isinstance exc Exception) excs.

(** The states the module can be in when [root] is the class specialized so
    far: each cached class is the specialization its key describes and derives
    from [root], so the object [__new__] returns is an instance of the class
    being called and [__init__] runs on it. *)
Record wf (s : state) (root : addr) : Prop := WF {
  wf_root : ∃ c, classes s !! root = Some c ∧ specializations c = None;
  wf_cache : ∀ key a, _specs_cache s !! key = Some a →
    ∃ c, classes s !! a = Some c ∧
         specializations c = Some (omap kind_of (elements key)) ∧
         inclusive c = bool_decide (Open ∈ key) ∧
         __bases__ c = [GroupClass root] ∧
         base_case c = GroupClass root;
}.

(** What holds of the cache in every state of the module, however many
    families share it: a cached class is the specialization its key
    describes. *)
Definition cache_ok (s : state) : Prop :=
  ∀ key a, _specs_cache s !! key = Some a →
    ∃ c, classes s !! a = Some c ∧
         specializations c = Some (omap kind_of (elements key)) ∧
         inclusive c = bool_decide (Open ∈ key).

(** The invariant of the module: [ExceptionGroup] is a base case, every class
    of the store derives from it, and the cache is as above. *)
Record inv (s : state) : Prop := Inv {
  inv_root : ∃ c, classes s !! ExceptionGroup = Some c ∧ specializations c = None;
  inv_derives : ∀ a c, classes s !! a = Some c →
                       derives (classes s) a ExceptionGroup = true;
  inv_cache : cache_ok s;
}.

(** The outcome of a call of [cls] in which [__init__] did not run: the
    object is as [__new__] left it, of a class that does not derive from
    [cls]; [ExceptionGroup] is never called so. *)
Definition skipped (cls : addr) (obj : instance) (s' : state) : Prop :=
  cls ≠ ExceptionGroup ∧
  obj = Uninitialised (instance_class obj) None None None false ∧
  derives (classes s') (instance_class obj) cls = false.

(** What [issubclass(v, f)] comes to for two classes of one base: the base
    case accepts all; a specialization wants each of its members covered and,
    when exact, each member of [v] accounted for; on the base case as [v]
    only the inclusive specialization without members answers. *)
Definition accepts (f v : group_class) : Prop :=
  match specializations f with
  | None => True
  | Some rs =>
      match specializations v with
      | Some xs =>
          (∀ r, r ∈ rs → ∃ x, x ∈ xs ∧ issubclass x r = true) ∧
          (inclusive f = true ∨ ∀ x, x ∈ xs → ∃ r, r ∈ rs ∧ issubclass x r = true)
      | None => rs = [] ∧ inclusive f = true
      end
  end.

(** From [s] to [s'] the classes that exist stay as they are, at most one
    class is added, and what the cache holds it keeps. *)
Definition grows (s s' : state) : Prop :=
  (∃ new, classes s' = classes s ++ new ∧ length new ≤ 1) ∧
  (∀ key a, _specs_cache s !! key = Some a → _specs_cache s' !! key = Some a).

(** [sub in s] for strings. *)
Definition occurs_in (sub s : string) : Prop :=
  ∃ before after, s = before +:+ sub +:+ after.

Lemma all_gen_pure {A} (g : A → bool) (l : list A) :
  all_gen (λ x, Ok (g x)) l = Ok (forallb g l).
Proof.
  induction l as [|x l IH]; simpl; [done|].
  unfold mbind, result_bind. by destruct (g x).
Qed.

Lemma existsb_elem_of {A} (p : A → bool) (l : list A) :
  existsb p l = true ↔ ∃ x, x ∈ l ∧ p x = true.
Proof.
  rewrite existsb_exists. by setoid_rewrite list_elem_of_In.
Qed.

Lemma forallb_elem_of {A} (p : A → bool) (l : list A) :
  forallb p l = true ↔ ∀ x, x ∈ l → p x = true.
Proof.
  rewrite forallb_forall. by setoid_rewrite list_elem_of_In.
Qed.

Lemma not_existsb_negb {A} (p : A → bool) (l : list A) :
  negb (existsb (λ x, negb (p x)) l) = forallb p l.
Proof.
  induction l as [|x l IH]; simpl; [done|].
  rewrite negb_orb, negb_involutive. by rewrite IH.
Qed.

(** Between two specialized classes the check returns, and says whether the
    requirements are covered and, for an exact filter, the members accounted
    for. *)
Lemma _subclasscheck_specialization_Some f v rs xs :
  specializations f = Some rs →
  specializations v = Some xs →
  _subclasscheck_specialization f v =
    Ok (forallb (λ r, existsb (λ x, issubclass x r) xs) rs
        && (inclusive f || forallb (λ x, issubclass_any x rs) xs)).
Proof.
  intros Hf Hv. unfold _subclasscheck_specialization, iter_specializations.
  rewrite Hf, Hv. simpl. unfold mbind at 1, result_bind at 1.
  rewrite (all_gen_pure (λ r, existsb (λ x, issubclass x r) xs)).
  unfold mbind, result_bind.
  destruct (forallb _ rs); simpl; [|done].
  destruct (inclusive f); simpl; [done|].
  by rewrite not_existsb_negb.
Qed.

(** A specialized filter with a requirement raises on the base case: it
    iterates its [specializations], which is [None]. *)
Lemma _subclasscheck_specialization_None f v r rs :
  specializations f = Some (r :: rs) →
  specializations v = None →
  _subclasscheck_specialization f v = Raise (TypeError NotIterable).
Proof.
  intros Hf Hv. unfold _subclasscheck_specialization, iter_specializations.
  by rewrite Hf, Hv.
Qed.

Lemma __subclasscheck___same h F : __subclasscheck__ h F (GroupClass F) = Ok true.
Proof. unfold __subclasscheck__. by rewrite decide_True. Qed.

Lemma __subclasscheck___other h F V f v :
  F ≠ V → h !! F = Some f → h !! V = Some v →
  __subclasscheck__ h F (GroupClass V) =
    if decide (base_case v ≠ base_case f) then Ok false
    else match specializations f with
         | None => Ok true
         | Some _ => _subclasscheck_specialization f v
         end.
Proof.
  intros Hne HF HV. unfold __subclasscheck__, deref.
  rewrite decide_False by congruence. by rewrite HV, HF.
Qed.

(** C1: for a specialized filter F with at least one member and a value
    shape V of the same base, [issubclass(V, F)] returns [True] exactly when
    every member of F has a subclass among the members of V and, unless F is
    inclusive, every member of V is a subclass of some member of F. *)
Theorem matches_specialized_iff h F V f v r0 rs :
  h !! F = Some f → h !! V = Some v →
  specializations f = Some (r0 :: rs) →
  base_case v = base_case f →
  __subclasscheck__ h F (GroupClass V) = Ok true ↔
    (∀ r, r ∈ members f → ∃ x, x ∈ members v ∧ issubclass x r = true) ∧
    (inclusive f = true ∨
     ∀ x, x ∈ members v → ∃ r, r ∈ members f ∧ issubclass x r = true).
Proof.
  intros HF HV Hf Hbase.
  destruct (decide (F = V)) as [->|Hne].
  - rewrite __subclasscheck___same. simplify_eq. split; [intros _|done].
    split; [|right]; intros r Hr; exists r; by rewrite issubclass_refl.
  - rewrite (__subclasscheck___other h F V f v) by done.
    rewrite decide_False by (by intros []). rewrite Hf.
    unfold members. rewrite Hf. simpl.
    destruct (specializations v) as [xs|] eqn:Hv; simpl.
    + rewrite (_subclasscheck_specialization_Some f v (r0 :: rs) xs) by done.
      split.
      * intros [= Hb]. apply andb_true_iff in Hb as [Ha Hb]. split.
        -- intros r Hr. apply existsb_elem_of.
           by apply (proj1 (forallb_elem_of
                              (λ r, existsb (λ x, issubclass x r) xs) (r0 :: rs)) Ha).
        -- apply orb_true_iff in Hb as [Hb|Hb]; [by left|right].
           intros x Hx. apply existsb_elem_of.
           by apply (proj1 (forallb_elem_of
                              (λ x, issubclass_any x (r0 :: rs)) xs) Hb).
      * intros [Ha Hb]. f_equal. apply andb_true_iff. split.
        -- apply forallb_elem_of. intros r Hr. apply existsb_elem_of. by apply Ha.
        -- apply orb_true_iff. destruct Hb as [Hb|Hb]; [by left|right].
           apply forallb_elem_of. intros x Hx. apply existsb_elem_of. by apply Hb.
    + rewrite (_subclasscheck_specialization_None f v r0 rs) by done.
      split; [done|]. intros [Ha _].
      destruct (Ha r0) as (x & Hx & _); [by left|]. by apply elem_of_nil in Hx.
Qed.

(** C5 (as amended): the base case itself, whose [specializations] is
    [None], accepts every class of its base. *)
Theorem matches_base_case h F V f v :
  h !! F = Some f → h !! V = Some v →
  specializations f = None →
  base_case v = base_case f →
  __subclasscheck__ h F (GroupClass V) = Ok true.
Proof.
  intros HF HV Hf Hbase.
  destruct (decide (F = V)) as [->|Hne]; [apply __subclasscheck___same|].
  rewrite (__subclasscheck___other h F V f v) by done.
  rewrite decide_False by (by intros []). by rewrite Hf.
Qed.

(** Classes of different bases never match. *)
Lemma matches_other_base h F V f v :
  h !! F = Some f → h !! V = Some v →
  base_case v ≠ base_case f →
  __subclasscheck__ h F (GroupClass V) = Ok false.
Proof.
  intros HF HV Hbase.
  assert (F ≠ V) by (intros ->; simplify_eq).
  rewrite (__subclasscheck___other h F V f v) by done.
  by rewrite decide_True.
Qed.

(** ** The registry *)

Ltac unfold_M :=
  unfold mbind, mret, M_bind, M_ret, result_bind, result_ret, lift, raise,
    get_state, cache_set in *.

Lemma _get_specialization_hit s cls item a :
  _specs_cache s !! (list_to_set item : gset spec) = Some a →
  _get_specialization cls item s = (Ok a, s).
Proof. intros Hc. unfold _get_specialization. unfold_M. by rewrite Hc. Qed.

Lemma _get_specialization_miss s cls c item :
  _specs_cache s !! (list_to_set item : gset spec) = None →
  classes s !! cls = Some c →
  ∃ name,
    _get_specialization cls item s =
      (Ok (length (classes s)),
       State (classes s ++
                [GroupCls name [GroupClass cls] (GroupClass cls)
                   (bool_decide (Open ∈ (list_to_set item : gset spec)))
                   (Some (omap kind_of (elements (list_to_set item : gset spec))))])
             (<[list_to_set item := length (classes s)]> (_specs_cache s))).
Proof.
  intros Hc Hcls. unfold _get_specialization, deref, ExceptionGroupMeta. unfold_M.
  rewrite Hc, Hcls. simpl. eauto.
Qed.

(** Either way the class returned is the one the cache holds afterwards, and
    the classes that existed are still there. *)
Lemma _get_specialization_cached s cls c item :
  classes s !! cls = Some c →
  ∃ a s', _get_specialization cls item s = (Ok a, s') ∧
          _specs_cache s' !! (list_to_set item : gset spec) = Some a ∧
          ∃ new, classes s' = classes s ++ new.
Proof.
  intros Hcls.
  destruct (_specs_cache s !! (list_to_set item : gset spec)) as [a|] eqn:Hc.
  - exists a, s. rewrite (_get_specialization_hit s cls item a) by done.
    repeat split; [done|]. exists []. by rewrite app_nil_r.
  - destruct (_get_specialization_miss s cls c item) as [name ->]; [done..|].
    eexists _, _. split; [done|]. simpl. rewrite lookup_insert_eq. eauto.
Qed.

Lemma _get_specialization_wf s root item a s' :
  wf s root →
  _get_specialization root item s = (Ok a, s') →
  wf s' root.
Proof.
  intros [(c & Hroot & Hc) Hcache] Hget.
  destruct (_specs_cache s !! (list_to_set item : gset spec)) as [a'|] eqn:Hlook.
  - rewrite (_get_specialization_hit s root item a') in Hget by done.
    simplify_eq. split; eauto.
  - destruct (_get_specialization_miss s root c item) as [name Heq]; [done..|].
    rewrite Heq in Hget. simplify_eq. split; simpl.
    + exists c. split; [|done]. by apply lookup_app_l_Some.
    + intros key a. rewrite lookup_insert.
      destruct (decide (list_to_set item = key)) as [Hkey|Hkey].
      * intros [= ?]. subst key a. eexists. split.
        { rewrite lookup_app_r by done. by rewrite Nat.sub_diag. }
        done.
      * intros Hk. destruct (Hcache key a Hk) as (c' & Hc' & ?).
        exists c'. split; [by apply lookup_app_l_Some|done].
Qed.

Lemma check_child_valid o : check_child o = Ok true ↔ valid_child o = true.
Proof.
  destruct o as [|k|x]; simpl; [done| |done].
  split; [by intros [= ->]|by intros ->].
Qed.

Lemma check_children_valid children :
  forallb valid_child children = true → all_gen check_child children = Ok true.
Proof.
  induction children as [|o l IH]; simpl; [done|].
  intros [Ho Hl]%andb_true_iff. apply check_child_valid in Ho. rewrite Ho.
  by apply IH.
Qed.

Lemma check_children_invalid children :
  forallb valid_child children = false →
  all_gen check_child children = Ok false ∨
  all_gen check_child children = Raise (TypeError IssubclassArg1).
Proof.
  induction children as [|o l IH]; simpl; [done|].
  intros [Ho|Hl]%andb_false_iff.
  - destruct o as [|k|x]; simpl in *; [done| |by right].
    rewrite Ho. by left.
  - destruct o as [|k|x]; simpl in *; [by apply IH| |by right].
    destruct (issubclass k BaseException); simpl; [by apply IH|by left].
Qed.

Lemma __getitem___specialized s cls c item :
  classes s !! cls = Some c → is_Some (specializations c) →
  __getitem__ cls item s = (Raise (TypeError AlreadySpecialized), s).
Proof.
  intros Hcls [l Hl]. unfold __getitem__, deref. unfold_M. by rewrite Hcls, Hl.
Qed.

Lemma __getitem___Tuple s cls c children :
  classes s !! cls = Some c → specializations c = None →
  forallb valid_child children = true →
  __getitem__ cls (Tuple children) s =
    _get_specialization cls (omap spec_of children) s.
Proof.
  intros Hcls Hc Hv. unfold __getitem__, deref. unfold_M. rewrite Hcls, Hc.
  by rewrite check_children_valid.
Qed.

Lemma __getitem___Tuple_invalid s cls c children :
  classes s !! cls = Some c → specializations c = None →
  forallb valid_child children = false →
  ∃ why, __getitem__ cls (Tuple children) s = (Raise (TypeError why), s).
Proof.
  intros Hcls Hc Hv. unfold __getitem__, deref. unfold_M. rewrite Hcls, Hc.
  destruct (check_children_invalid children Hv) as [-> | ->]; eauto.
Qed.

Lemma __getitem___Single s cls c o :
  classes s !! cls = Some c → specializations c = None →
  __getitem__ cls (Single o) s =
    match o with
    | Ellipsis => (Ok cls, s)
    | ClassObj k =>
        if issubclass k BaseException
        then _get_specialization cls [Kind k] s
        else (Raise (TypeError ExpectedSubclass), s)
    | Other _ => (Raise (TypeError IssubclassArg1), s)
    end.
Proof.
  intros Hcls Hc. unfold __getitem__, deref. unfold_M. rewrite Hcls, Hc.
  destruct o as [|k|x]; simpl; [done| |done].
  by destruct (issubclass k BaseException).
Qed.

Lemma __getitem___valid s cls c item :
  classes s !! cls = Some c → specializations c = None →
  valid_subscript item = true →
  ∃ a s', __getitem__ cls item s = (Ok a, s').
Proof.
  intros Hcls Hc Hv. destruct item as [o|children]; simpl in Hv.
  - rewrite (__getitem___Single s cls c) by done.
    destruct o as [|k|x]; simpl in Hv; [eauto| |done]. rewrite Hv.
    destruct (_get_specialization_cached s cls c [Kind k]) as (a & s' & -> & _);
      eauto.
  - rewrite (__getitem___Tuple s cls c) by done.
    destruct (_get_specialization_cached s cls c (omap spec_of children))
      as (a & s' & -> & _); eauto.
Qed.

Lemma __getitem___invalid s cls c item :
  classes s !! cls = Some c → specializations c = None →
  valid_subscript item = false →
  ∃ why, __getitem__ cls item s = (Raise (TypeError why), s).
Proof.
  intros Hcls Hc Hv. destruct item as [o|children]; simpl in Hv.
  - rewrite (__getitem___Single s cls c) by done.
    destruct o as [|k|x]; simpl in Hv; [done| |eauto]. rewrite Hv. eauto.
  - by apply (__getitem___Tuple_invalid s cls c).
Qed.

(** C7 (as amended): subscripting a class of the store raises exactly when
    the class is a specialization (its [specializations] is not [None], which
    includes the specializations with no member) or an offered member is
    neither [...] nor a subclass of [BaseException]; what it raises is a
    [TypeError], and the store and the cache are left as they were. *)
Theorem __getitem___raises_iff s cls c item :
  classes s !! cls = Some c →
  ((∃ e, (__getitem__ cls item s).1 = Raise e) ↔
     is_Some (specializations c) ∨ valid_subscript item = false) ∧
  (∀ e, (__getitem__ cls item s).1 = Raise e →
        (∃ why, e = TypeError why) ∧ (__getitem__ cls item s).2 = s).
Proof.
  intros Hcls. destruct (specializations c) as [l|] eqn:Hc.
  - rewrite (__getitem___specialized s cls c) by (by rewrite ?Hc).
    simpl. split; [split; eauto|]. intros e [= <-]. eauto.
  - destruct (valid_subscript item) eqn:Hv.
    + destruct (__getitem___valid s cls c item) as (a & s' & ->); [done..|].
      simpl. split; [|done]. split; [by intros [e ?]|].
      intros [[? [=]]|[=]].
    + destruct (__getitem___invalid s cls c item) as (why & ->); [done..|].
      simpl. split; [split; eauto|]. intros e [= <-]. eauto.
Qed.

(** C2: on a base case [cls], two tuples of accepted children with the
    same frozenset yield the same class: the second request returns the
    object of the first and changes nothing. *)
Theorem __getitem___same_object s cls c t1 t2 :
  classes s !! cls = Some c → specializations c = None →
  forallb valid_child t1 = true → forallb valid_child t2 = true →
  frozenset t1 = frozenset t2 →
  ∃ a s1, __getitem__ cls (Tuple t1) s = (Ok a, s1) ∧
          __getitem__ cls (Tuple t2) s1 = (Ok a, s1).
Proof.
  intros Hcls Hc Hv1 Hv2 Hset.
  rewrite (__getitem___Tuple s cls c) by done.
  destruct (_get_specialization_cached s cls c (omap spec_of t1) Hcls)
    as (a & s1 & -> & Hcache & new & Hnew).
  exists a, s1. split; [done|].
  assert (classes s1 !! cls = Some c) as Hcls1.
  { rewrite Hnew. by apply lookup_app_l_Some. }
  rewrite (__getitem___Tuple s1 cls c) by done.
  apply _get_specialization_hit. unfold frozenset in Hset. by rewrite <-Hset.
Qed.

(** ** Construction *)

Implicit Types (excs : list value) (srcs : list string) (exc : value)
  (m : string).

Lemma __new___specialized s cls c m excs srcs :
  classes s !! cls = Some c → is_Some (specializations c) →
  __new__ cls m excs srcs s =
    match excs with
    | [] => (Raise (TypeError EmptySpecialisation), s)
    | _ :: _ => (Ok cls, s)
    end.
Proof.
  intros Hcls [l Hl]. unfold __new__, deref. unfold_M. rewrite Hcls, Hl.
  by destruct excs.
Qed.

Lemma __new___base_case s cls c m excs srcs :
  classes s !! cls = Some c → specializations c = None →
  __new__ cls m excs srcs s =
    __getitem__ cls (Tuple ((λ child, ClassObj (type child)) <$> excs)) s.
Proof.
  intros Hcls Hc. unfold __new__, deref. unfold_M. by rewrite Hcls, Hc.
Qed.

Lemma check_exceptions_Ok excs :
  all_exceptions excs = true → check_exceptions excs = Ok ().
Proof.
  induction excs as [|exc excs IH]; simpl; [done|].
  intros [-> Hl]%andb_true_iff. by apply IH.
Qed.

Lemma check_exceptions_Raise excs :
  all_exceptions excs = false →
  ∃ exc, exc ∈ excs ∧ isinstance exc Exception = false ∧
         check_exceptions excs = Raise (TypeError (ExpectedExceptionObject exc)).
Proof.
  induction excs as [|exc excs IH]; simpl; [done|].
  destruct (isinstance exc Exception) eqn:Hexc; simpl.
  - intros Hl. destruct (IH Hl) as (exc' & ? & ? & ?).
    exists exc'. split; [by right|done].
  - intros _. exists exc. split; [by left|done].
Qed.

Lemma __init___Ok self m excs srcs :
  all_exceptions excs = true → length srcs = length excs →
  __init__ self m excs srcs =
    Ok (ExcGroup self (m, excs, srcs) m excs srcs None None None false).
Proof.
  intros Hexc Hlen. unfold __init__. rewrite check_exceptions_Ok by done.
  simpl. by rewrite decide_False by (by intros []).
Qed.

Lemma __init___ValueError self m excs srcs :
  all_exceptions excs = true → length srcs ≠ length excs →
  __init__ self m excs srcs = Raise (ValueError (length srcs) (length excs)).
Proof.
  intros Hexc Hlen. unfold __init__. rewrite check_exceptions_Ok by done.
  simpl. by rewrite decide_True.
Qed.

Lemma __init___TypeError self m excs srcs :
  all_exceptions excs = false →
  ∃ exc, exc ∈ excs ∧ isinstance exc Exception = false ∧
         __init__ self m excs srcs = Raise (TypeError (ExpectedExceptionObject exc)).
Proof.
  intros Hexc. destruct (check_exceptions_Raise excs Hexc) as (exc & ? & ? & Heq).
  exists exc. unfold __init__. by rewrite Heq.
Qed.

Lemma isinstance_Exception_BaseException exc :
  isinstance exc Exception = true → isinstance exc BaseException = true.
Proof.
  intros Hexc. eapply issubclass_trans; [exact Hexc|apply Exception_BaseException].
Qed.

Lemma types_valid excs :
  all_exceptions excs = true →
  forallb valid_child ((λ child, ClassObj (type child)) <$> excs) = true.
Proof.
  induction excs as [|exc excs IH]; simpl; [done|].
  intros [Hexc Hl]%andb_true_iff. apply andb_true_iff. split; [|by apply IH].
  by apply isinstance_Exception_BaseException.
Qed.

Lemma spec_of_types excs :
  omap spec_of ((λ child, ClassObj (type child)) <$> excs) =
  (λ child, Kind (type child)) <$> excs.
Proof. induction excs as [|exc excs IH]; [done|]. csimpl. by f_equal. Qed.


(** The members of a class are listed once each. *)
Lemma kinds_NoDup (key : gset spec) : NoDup (omap kind_of (elements key)).
Proof.
  pose proof (NoDup_elements key) as Hnd.
  induction Hnd as [|x l Hx Hnd IH]; csimpl; [constructor|].
  destruct x as [|k]; simpl; [done|]. constructor; [|done].
  rewrite list_elem_of_omap. intros ([|k'] & Hk' & Heq); simpl in Heq; by simplify_eq.
Qed.

(** ** The states of the module *)

Lemma derives_fuel_refl fuel h a : derives_fuel fuel h a a = true.
Proof. destruct fuel; simpl; by rewrite bool_decide_true. Qed.

Lemma derives_refl h a : derives h a a = true.
Proof. apply derives_fuel_refl. Qed.

Lemma derives_fuel_S fuel h a b :
  derives_fuel (S fuel) h a b =
    bool_decide (a = b) ||
    match h !! a with
    | Some c =>
        existsb (λ base,
                   match base with
                   | GroupClass p => derives_fuel fuel h p b
                   | PlainClass _ => false
                   end) (__bases__ c)
    | None => false
    end.
Proof. done. Qed.

Lemma derives_fuel_mono fuel fuel' h h' a b :
  fuel ≤ fuel' → (∀ (i : addr) c, h !! i = Some c → h' !! i = Some c) →
  derives_fuel fuel h a b = true → derives_fuel fuel' h' a b = true.
Proof.
  intros Hle Hsub. revert fuel' a Hle.
  induction fuel as [|fuel IH]; intros fuel' a Hle.
  - simpl. rewrite orb_false_r. intros ->%bool_decide_eq_true.
    apply derives_fuel_refl.
  - rewrite derives_fuel_S. intros [Heq|Hex]%orb_true_iff.
    + apply bool_decide_eq_true in Heq as ->. apply derives_fuel_refl.
    + destruct fuel' as [|fuel']; [lia|]. rewrite derives_fuel_S.
      apply orb_true_iff. right.
      destruct (h !! a) as [c|] eqn:Ha; [|done]. rewrite (Hsub _ _ Ha).
      apply existsb_elem_of in Hex as (base & Hbase & Hd).
      apply existsb_elem_of. exists base. split; [done|].
      destruct base as [p|k]; [|done]. apply IH; [lia|done].
Qed.

Lemma derives_app h new a b :
  derives h a b = true → derives (h ++ new) a b = true.
Proof.
  unfold derives. apply derives_fuel_mono.
  - rewrite length_app. lia.
  - intros i c. apply lookup_app_l_Some.
Qed.

Lemma derives_new h c p b :
  GroupClass p ∈ __bases__ c → derives h p b = true →
  derives (h ++ [c]) (length h) b = true.
Proof.
  intros Hp Hd. unfold derives. rewrite length_app, Nat.add_1_r.
  rewrite derives_fuel_S. apply orb_true_iff. right.
  rewrite lookup_app_r, Nat.sub_diag by done. simpl.
  apply existsb_elem_of. exists (GroupClass p). split; [done|].
  apply (derives_fuel_mono (length h) _ h); [lia| |done].
  intros i c'. apply lookup_app_l_Some.
Qed.

(** A class that derives from a class of the store is added, and the cache
    gets entries for that class at most. *)
Lemma inv_alloc s c p (cache' : gmap (gset spec) addr) :
  inv s →
  GroupClass p ∈ __bases__ c → is_Some (classes s !! p) →
  (∀ key a, cache' !! key = Some a →
     _specs_cache s !! key = Some a ∨
     (a = length (classes s) ∧
      specializations c = Some (omap kind_of (elements key)) ∧
      inclusive c = bool_decide (Open ∈ key))) →
  inv (State (classes s ++ [c]) cache').
Proof.
  intros [(rc & Hroot & Hrc) Hder Hcache] Hp [pc Hpc] Hnew. split; simpl.
  - exists rc. split; [by apply lookup_app_l_Some|done].
  - intros a c' [Ha|[Hge Ha]]%lookup_app_Some.
    + apply derives_app. by eapply Hder.
    + apply list_lookup_singleton_Some in Ha as [Ha ->].
      assert (a = length (classes s)) as -> by lia.
      apply (derives_new _ _ p); [done|]. by eapply Hder.
  - intros key a Hkey. simpl in *.
    destruct (Hnew key a Hkey) as [Hold|(-> & Hs & Hi)].
    + destruct (Hcache key a Hold) as (c' & Hc' & ?).
      exists c'. split; [by apply lookup_app_l_Some|done].
    + exists c. split; [|done]. by rewrite lookup_app_r, Nat.sub_diag.
Qed.

Lemma ExceptionGroupMeta_inv s name bases specs incl b :
  inv s → GroupClass b ∈ bases → is_Some (classes s !! b) →
  inv (ExceptionGroupMeta name bases specs incl s).2.
Proof.
  intros Hinv Hb Hstore. unfold ExceptionGroupMeta.
  destruct specs as [l|]; simpl.
  - destruct bases as [|base bases]; [by apply elem_of_nil in Hb|]. simpl.
    apply (inv_alloc s _ b); [done..|]. intros key a ?. by left.
  - apply (inv_alloc s _ b); [done..|]. intros key a ?. by left.
Qed.

Lemma _get_specialization_inv s cls item :
  inv s → inv (_get_specialization cls item s).2.
Proof.
  intros Hinv.
  destruct (_specs_cache s !! (list_to_set item : gset spec)) as [a|] eqn:Hc.
  - by rewrite (_get_specialization_hit s cls item a).
  - destruct (classes s !! cls) as [c|] eqn:Hcls.
    + destruct (_get_specialization_miss s cls c item) as [name ->]; [done..|].
      simpl. apply (inv_alloc s _ cls); [done|by left|by eexists|].
      intros key a. rewrite lookup_insert.
      destruct (decide (list_to_set item = key)) as [<-|?]; [|by left].
      intros [= <-]. by right.
    + unfold _get_specialization, deref. unfold_M. by rewrite Hc, Hcls.
Qed.

Lemma __getitem___inv s cls item : inv s → inv (__getitem__ cls item s).2.
Proof.
  intros Hinv. destruct (classes s !! cls) as [c|] eqn:Hcls.
  - destruct (specializations c) as [l|] eqn:Hc.
    { by rewrite (__getitem___specialized s cls c) by (by rewrite ?Hc). }
    destruct (valid_subscript item) eqn:Hv.
    + destruct item as [[|k|x]|children]; simpl in Hv; [| |done|].
      * by rewrite (__getitem___Single s cls c).
      * rewrite (__getitem___Single s cls c) by done. rewrite Hv.
        by apply _get_specialization_inv.
      * rewrite (__getitem___Tuple s cls c) by done.
        by apply _get_specialization_inv.
    + by destruct (__getitem___invalid s cls c item) as (why & ->).
  - unfold __getitem__, deref. unfold_M. by rewrite Hcls.
Qed.

(** What a call does to the state is what [__new__] does to it. *)
Lemma call_state s cls m excs srcs :
  (ExceptionGroup_call cls m excs srcs s).2 = (__new__ cls m excs srcs s).2.
Proof.
  unfold ExceptionGroup_call. unfold_M.
  destruct (__new__ cls m excs srcs s) as [[a|e] s1]; [|done]. simpl.
  destruct (derives (classes s1) a cls); [|done].
  by destruct (__init__ a m excs srcs).
Qed.

Lemma __new___inv s cls m excs srcs : inv s → inv (__new__ cls m excs srcs s).2.
Proof.
  intros Hinv. destruct (classes s !! cls) as [c|] eqn:Hcls.
  - destruct (specializations c) as [l|] eqn:Hc.
    + rewrite (__new___specialized s cls c) by (by rewrite ?Hc). by destruct excs.
    + rewrite (__new___base_case s cls c) by done. by apply __getitem___inv.
  - unfold __new__, deref. unfold_M. by rewrite Hcls.
Qed.

Lemma copy_state s self :
  (__copy__ self s).2
  = (ExceptionGroup_call (__class__ self) (message self) (exceptions self)
       (sources self) s).2.
Proof.
  unfold __copy__. unfold_M.
  by destruct (ExceptionGroup_call _ _ _ _ s) as [[obj|e] s1].
Qed.

Lemma inv_initial_state : inv initial_state.
Proof.
  split.
  - by eexists.
  - intros [|a] c Ha; [done|]. by destruct a.
  - intros key a Hkey. simpl in Hkey. by rewrite lookup_empty in Hkey.
Qed.

(** The invariant holds in every state of the module. *)
Lemma reachable_inv s : reachable s → inv s.
Proof.
  induction 1 as [|s name bases specs incl b _ IH Hb Hstore|s cls item _ IH
                  |s cls m excs srcs _ IH|s self _ IH|s key _ IH].
  - apply inv_initial_state.
  - by apply (ExceptionGroupMeta_inv s name bases specs incl b).
  - by apply __getitem___inv.
  - rewrite call_state. by apply __new___inv.
  - rewrite copy_state, call_state. by apply __new___inv.
  - destruct IH as [Hroot Hder Hcache]. split; [done..|].
    intros k a Hk. simpl in Hk. apply lookup_delete_Some in Hk as [_ Hk].
    by apply Hcache.
Qed.

(** ** Calls *)

Lemma call_runs_init s cls m excs srcs a s' :
  __new__ cls m excs srcs s = (Ok a, s') →
  derives (classes s') a cls = true →
  ExceptionGroup_call cls m excs srcs s =
    (match __init__ a m excs srcs with
     | Ok g => Ok (Initialised g)
     | Raise e => Raise e
     end, s').
Proof.
  intros Hnew Hd. unfold ExceptionGroup_call. unfold_M. rewrite Hnew. simpl.
  rewrite Hd. by destruct (__init__ a m excs srcs).
Qed.

Lemma call_skips_init s cls m excs srcs a s' :
  __new__ cls m excs srcs s = (Ok a, s') →
  derives (classes s') a cls = false →
  ExceptionGroup_call cls m excs srcs s
  = (Ok (Uninitialised a None None None false), s').
Proof.
  intros Hnew Hd. unfold ExceptionGroup_call. unfold_M. rewrite Hnew. simpl.
  by rewrite Hd.
Qed.

Lemma call_new_raises s cls m excs srcs e s' :
  __new__ cls m excs srcs s = (Raise e, s') →
  ExceptionGroup_call cls m excs srcs s = (Raise e, s').
Proof. intros Hnew. unfold ExceptionGroup_call. unfold_M. by rewrite Hnew. Qed.

Lemma __init___Ok_inv self m excs srcs g :
  __init__ self m excs srcs = Ok g →
  all_exceptions excs = true ∧ length srcs = length excs ∧
  g = ExcGroup self (m, excs, srcs) m excs srcs None None None false.
Proof.
  intros Hinit. destruct (all_exceptions excs) eqn:Hexc.
  - destruct (decide (length srcs = length excs)) as [Hlen|Hlen].
    + rewrite __init___Ok in Hinit by done. by simplify_eq.
    + by rewrite __init___ValueError in Hinit.
  - destruct (__init___TypeError self m excs srcs Hexc) as (exc & _ & _ & Heq).
    by rewrite Heq in Hinit.
Qed.

(** The object a call returns is of the class [__new__] has chosen; if it is
    a group, [__init__] has accepted the arguments and stored them. *)
Lemma call_Ok_inv s cls m excs srcs obj s' :
  ExceptionGroup_call cls m excs srcs s = (Ok obj, s') →
  __new__ cls m excs srcs s = (Ok (instance_class obj), s') ∧
  (∀ g, obj = Initialised g →
        all_exceptions excs = true ∧ length srcs = length excs ∧
        g = ExcGroup (__class__ g) (m, excs, srcs) m excs srcs None None None false).
Proof.
  unfold ExceptionGroup_call. unfold_M.
  destruct (__new__ cls m excs srcs s) as [[a|e] s1]; [|done]. simpl.
  destruct (derives (classes s1) a cls).
  - destruct (__init__ a m excs srcs) as [g|e] eqn:Hinit; [|done].
    intros [= <- <-]. apply __init___Ok_inv in Hinit as (? & ? & ->).
    split; [done|]. by intros g [= <-].
  - intros [= <- <-]. split; [done|]. by intros g [=].
Qed.

(** Calling a specialization: no look at the cache, no new class, and
    [__init__] runs, the object being of the class called. *)
Lemma call_specialized s cls c m exc excs srcs :
  classes s !! cls = Some c → is_Some (specializations c) →
  ExceptionGroup_call cls m (exc :: excs) srcs s =
    (match __init__ cls m (exc :: excs) srcs with
     | Ok g => Ok (Initialised g)
     | Raise e => Raise e
     end, s).
Proof.
  intros Hcls Hc. apply call_runs_init; [|apply derives_refl].
  by rewrite (__new___specialized s cls c).
Qed.

(** A tuple subscript that returns has found the class subscripted to be a
    base case and the children acceptable, and leaves the class it returns in
    the cache. *)
Lemma __getitem___Tuple_cached s cls children a s' :
  __getitem__ cls (Tuple children) s = (Ok a, s') →
  (∃ c, classes s !! cls = Some c ∧ specializations c = None) ∧
  forallb valid_child children = true ∧
  _get_specialization cls (omap spec_of children) s = (Ok a, s') ∧
  _specs_cache s' !! frozenset children = Some a.
Proof.
  intros Hget. destruct (classes s !! cls) as [c|] eqn:Hcls.
  - destruct (specializations c) as [l|] eqn:Hc.
    { by rewrite (__getitem___specialized s cls c) in Hget by (by rewrite ?Hc). }
    destruct (forallb valid_child children) eqn:Hv.
    + rewrite (__getitem___Tuple s cls c) in Hget by done.
      destruct (_get_specialization_cached s cls c (omap spec_of children) Hcls)
        as (a' & s1 & Hget' & Hlook & _).
      rewrite Hget in Hget'. simplify_eq.
      split; [by exists c|]. by split.
    + destruct (__getitem___Tuple_invalid s cls c children) as (why & Heq);
        [done..|]. by rewrite Heq in Hget.
  - unfold __getitem__, deref in Hget. unfold_M. by rewrite Hcls in Hget.
Qed.

(** A call is [__new__] and then [__init__], unless the class of the object
    does not derive from the class called. *)
Lemma call_unfold s cls m excs srcs a s' :
  __new__ cls m excs srcs s = (Ok a, s') →
  ExceptionGroup_call cls m excs srcs s =
    (if derives (classes s') a cls
     then match __init__ a m excs srcs with
          | Ok g => Ok (Initialised g)
          | Raise e => Raise e
          end
     else Ok (Uninitialised a None None None false), s').
Proof.
  intros Hnew. destruct (derives (classes s') a cls) eqn:Hd.
  - by apply call_runs_init.
  - by apply call_skips_init.
Qed.

(** Calling a base case with members whose classes pass the subscript:
    [__new__] returns the class the cache holds for them, which derives from
    [ExceptionGroup]. *)
Lemma __new___base_case_Ok s cls c m excs srcs :
  inv s → classes s !! cls = Some c → specializations c = None →
  forallb valid_child ((λ child, ClassObj (type child)) <$> excs) = true →
  ∃ a s', __new__ cls m excs srcs s = (Ok a, s') ∧
          _specs_cache s' !! list_to_set ((λ child, Kind (type child)) <$> excs)
          = Some a ∧
          derives (classes s') a ExceptionGroup = true.
Proof.
  intros Hinv Hcls Hc Hv.
  destruct (_get_specialization_cached s cls c
              ((λ child, Kind (type child)) <$> excs) Hcls)
    as (a & s' & Hget & Hlook & _).
  exists a, s'.
  pose proof (_get_specialization_inv s cls
                ((λ child, Kind (type child)) <$> excs) Hinv) as Hinv'.
  rewrite Hget in Hinv'. simpl in Hinv'.
  destruct (inv_cache _ Hinv' _ _ Hlook) as (c' & Hc' & _).
  split; [|split; [done|by apply (inv_derives _ Hinv' a c')]].
  rewrite (__new___base_case s cls c) by done.
  rewrite (__getitem___Tuple s cls c) by done.
  by rewrite spec_of_types.
Qed.

(** The two outcomes of a call of a base case, once [__new__] has returned:
    [__init__] has run, or it was skipped. *)
Lemma call_base_case s cls c m excs srcs :
  inv s → classes s !! cls = Some c → specializations c = None →
  forallb valid_child ((λ child, ClassObj (type child)) <$> excs) = true →
  ∃ a s',
    _specs_cache s' !! list_to_set ((λ child, Kind (type child)) <$> excs) = Some a ∧
    (ExceptionGroup_call cls m excs srcs s =
       (match __init__ a m excs srcs with
        | Ok g => Ok (Initialised g)
        | Raise e => Raise e
        end, s') ∨
     ExceptionGroup_call cls m excs srcs s
       = (Ok (Uninitialised a None None None false), s') ∧
     skipped cls (Uninitialised a None None None false) s').
Proof.
  intros Hinv Hcls Hc Hv.
  destruct (__new___base_case_Ok s cls c m excs srcs Hinv Hcls Hc Hv)
    as (a & s' & Hnew & Hlook & Hroot).
  exists a, s'. split; [done|]. rewrite (call_unfold s cls m excs srcs a s' Hnew).
  destruct (derives (classes s') a cls) eqn:Hd; [by left|right].
  split; [done|]. split; [|done]. intros ->. congruence.
Qed.


(** C4: a call of a specialization with members and no exceptions raises
    the [TypeError] of the empty specialisation and leaves the state alone; a
    call of a base case with no exceptions and no sources returns, in every
    state of the module, an object: a group without exceptions, always so for
    [ExceptionGroup], or else an object on which [__init__] did not run. *)
Theorem call_without_exceptions s cls c m srcs :
  classes s !! cls = Some c →
  (members c ≠ [] →
   ExceptionGroup_call cls m [] srcs s = (Raise (TypeError EmptySpecialisation), s)) ∧
  (reachable s → specializations c = None →
   ∃ obj s', ExceptionGroup_call cls m [] [] s = (Ok obj, s') ∧
             ((∃ g, obj = Initialised g ∧ exceptions g = [] ∧ sources g = []) ∨
              skipped cls obj s')).
Proof.
  intros Hcls. split.
  - intros Hmem. apply call_new_raises.
    rewrite (__new___specialized s cls c); [done..|].
    unfold members in Hmem. by destruct (specializations c).
  - intros Hreach Hc.
    destruct (call_base_case s cls c m [] [] (reachable_inv _ Hreach) Hcls Hc)
      as (a & s' & _ & [Hcall|[Hcall Hskip]]); [done| |].
    + rewrite __init___Ok in Hcall by done. eexists _, s'. split; [exact Hcall|].
      left. by eexists.
    + eexists _, s'. split; [exact Hcall|by right].
Qed.

(** C8: when every member is an exception, a call of a base case in a
    state of the module, or of a specialization with at least one exception,
    raises nothing but the [ValueError] carrying both lengths, and only when
    the lengths differ; what it returns is a group that holds the two sequences
    as given, or an object on which [__init__] did not run; for
    [ExceptionGroup] and for a specialization [__init__] always runs: the
    [ValueError] is raised exactly when the lengths differ, and what is
    returned is a group. *)
Theorem call_sources_mismatch s cls c m excs srcs :
  classes s !! cls = Some c →
  (specializations c = None ∧ reachable s) ∨ (is_Some (specializations c) ∧ excs ≠ []) →
  all_exceptions excs = true →
  (∀ e, (ExceptionGroup_call cls m excs srcs s).1 = Raise e →
        e = ValueError (length srcs) (length excs) ∧ length srcs ≠ length excs) ∧
  (∀ obj, (ExceptionGroup_call cls m excs srcs s).1 = Ok obj →
        (∃ g, obj = Initialised g ∧
              exceptions g = excs ∧ sources g = srcs ∧
              length (sources g) = length (exceptions g)) ∨
        skipped cls obj (ExceptionGroup_call cls m excs srcs s).2) ∧
  (cls = ExceptionGroup ∨ is_Some (specializations c) →
   ((ExceptionGroup_call cls m excs srcs s).1
      = Raise (ValueError (length srcs) (length excs)) ↔
    length srcs ≠ length excs) ∧
   (∀ obj, (ExceptionGroup_call cls m excs srcs s).1 = Ok obj →
         ∃ g, obj = Initialised g ∧
              exceptions g = excs ∧ sources g = srcs ∧
              length (sources g) = length (exceptions g))).
Proof.
  intros Hcls Hhow Hexc.
  assert (∃ a s',
            ExceptionGroup_call cls m excs srcs s =
              (match __init__ a m excs srcs with
               | Ok g => Ok (Initialised g)
               | Raise e => Raise e
               end, s') ∨
            (ExceptionGroup_call cls m excs srcs s
               = (Ok (Uninitialised a None None None false), s') ∧
             skipped cls (Uninitialised a None None None false) s') ∧
            specializations c = None) as (a & s' & [->|[[-> Hskip] Hc]]).
  { destruct Hhow as [[Hc Hreach]|[Hc Hne]].
    - destruct (call_base_case s cls c m excs srcs (reachable_inv _ Hreach) Hcls Hc)
        as (a & s' & _ & [?|?]); [by apply types_valid|..]; eauto.
    - destruct excs as [|exc excs]; [done|].
      exists cls, s. left. by apply (call_specialized s cls c). }
  - simpl. destruct (decide (length srcs = length excs)) as [Hlen|Hlen].
    + rewrite __init___Ok by done. split; [done|]. split.
      * intros obj [= <-]. left. by eexists.
      * intros _. split; [|intros obj [= <-]; by eexists].
        split; [done|]. by intros [].
    + rewrite __init___ValueError by done. split; [|done].
      by intros e [= <-].
  - simpl. split; [done|]. split.
    + intros obj [= <-]. by right.
    + intros [->|[l Hl]]; [|congruence]. by destruct Hskip as [[] _].
Qed.

(** C9: in every state of the module, the class of an instance of
    [BaseException] is accepted between the brackets of [ExceptionGroup], yet a
    call of [ExceptionGroup] or of a specialization with such an instance that
    is not an instance of [Exception] among the exceptions raises a
    [TypeError], and so does the call of any other class unless [__init__] did
    not run; whatever the call accepts the brackets accept too. *)
Theorem members_checked_more_narrowly s exc :
  reachable s →
  isinstance exc BaseException = true →
  isinstance exc Exception = false →
  (∃ a s', __getitem__ ExceptionGroup (Single (ClassObj (type exc))) s = (Ok a, s')) ∧
  (∀ cls c m excs srcs,
     classes s !! cls = Some c →
     exc ∈ excs →
     (cls = ExceptionGroup ∨ is_Some (specializations c) →
      ∃ why, (ExceptionGroup_call cls m excs srcs s).1 = Raise (TypeError why)) ∧
     ((∃ why, (ExceptionGroup_call cls m excs srcs s).1 = Raise (TypeError why)) ∨
      (∃ obj, (ExceptionGroup_call cls m excs srcs s).1 = Ok obj ∧
              skipped cls obj (ExceptionGroup_call cls m excs srcs s).2))) ∧
  (∀ exc', isinstance exc' Exception = true →
     ∃ a s', __getitem__ ExceptionGroup (Single (ClassObj (type exc'))) s = (Ok a, s')).
Proof.
  intros Hreach Hbase Hexc. pose proof (reachable_inv _ Hreach) as Hinv.
  pose proof Hinv as [(rc & Hroot & Hrc) _ _]. split; [|split].
  - apply (__getitem___valid s ExceptionGroup rc); [done..|]. exact Hbase.
  - intros cls c m excs srcs Hcls Hin.
    assert (all_exceptions excs = false) as Hall.
    { apply not_true_is_false. intros Hall.
      pose proof (proj1 (forallb_elem_of _ _) Hall exc Hin) as Hexc'.
      simpl in Hexc'. congruence. }
    assert ((∃ why, (ExceptionGroup_call cls m excs srcs s).1 = Raise (TypeError why)) ∨
            (∃ obj, (ExceptionGroup_call cls m excs srcs s).1 = Ok obj ∧
                    skipped cls obj (ExceptionGroup_call cls m excs srcs s).2) ∧
            specializations c = None) as Hcases.
    { destruct (specializations c) as [l|] eqn:Hc.
      - destruct excs as [|exc0 excs]; [by apply elem_of_nil in Hin|].
        rewrite (call_specialized s cls c) by (by rewrite ?Hc).
        destruct (__init___TypeError cls m (exc0 :: excs) srcs Hall)
          as (exc' & _ & _ & ->). left. eauto.
      - destruct (forallb valid_child ((λ child, ClassObj (type child)) <$> excs))
          eqn:Hv.
        + destruct (call_base_case s cls c m excs srcs Hinv Hcls Hc Hv)
            as (a & s' & _ & [->|[-> Hskip]]).
          * destruct (__init___TypeError a m excs srcs Hall) as (exc' & _ & _ & ->).
            left. eauto.
          * right. split; [|done]. by eexists.
        + destruct (__getitem___Tuple_invalid s cls c _ Hcls Hc Hv) as (why & Heq).
          rewrite (call_new_raises s cls m excs srcs (TypeError why) s).
          { left. eauto. }
          by rewrite (__new___base_case s cls c). }
    split.
    + intros Hhow. destruct Hcases as [?|[(obj & _ & Hne & _) Hc]]; [done|].
      destruct Hhow as [->|[l Hl]]; [done|congruence].
    + destruct Hcases as [?|[? _]]; [by left|by right].
  - intros exc' Hexc'. apply (__getitem___valid s ExceptionGroup rc); [done..|].
    by apply isinstance_Exception_BaseException.
Qed.

(** C10: a call of a specialization with members, with at least one
    exception, all of them instances of [Exception], and as many sources,
    returns a group whose class is the class called; the classes of the
    exceptions are not compared with its members, and no class is looked up
    or created. *)
Theorem call_specialized_keeps_class s cls c m excs srcs :
  classes s !! cls = Some c →
  members c ≠ [] → excs ≠ [] →
  all_exceptions excs = true →
  length srcs = length excs →
  ∃ g, ExceptionGroup_call cls m excs srcs s = (Ok (Initialised g), s) ∧
       __class__ g = cls ∧ message g = m ∧ exceptions g = excs ∧ sources g = srcs.
Proof.
  intros Hcls Hmem Hne Hexc Hlen. destruct excs as [|exc excs]; [done|].
  rewrite (call_specialized s cls c); [|done|].
  - rewrite __init___Ok by done. by eexists.
  - unfold members in Hmem. by destruct (specializations c).
Qed.

(** ** Copy *)

Lemma wf_initial_state : wf initial_state ExceptionGroup.
Proof.
  split.
  - by eexists.
  - intros key a Hlook. simpl in Hlook. by rewrite lookup_empty in Hlook.
Qed.

(** Whatever they return, subscripts and calls keep the state well formed. *)
Lemma __getitem___wf s root item :
  wf s root → wf (__getitem__ root item s).2 root.
Proof.
  intros Hwf. pose proof Hwf as [(c & Hroot & Hc) _].
  destruct (valid_subscript item) eqn:Hv.
  - destruct item as [[|k|x]|children]; simpl in Hv; [| |done|].
    + by rewrite (__getitem___Single s root c).
    + rewrite (__getitem___Single s root c) by done. rewrite Hv.
      destruct (_get_specialization_cached s root c [Kind k] Hroot)
        as (a & s' & Hget & _).
      rewrite Hget. by eapply _get_specialization_wf.
    + rewrite (__getitem___Tuple s root c) by done.
      destruct (_get_specialization_cached s root c (omap spec_of children) Hroot)
        as (a & s' & Hget & _).
      rewrite Hget. by eapply _get_specialization_wf.
  - by destruct (__getitem___invalid s root c item) as (why & ->).
Qed.

(** X22: a call of the base case or of a specialization, whether it
    returns a group or raises, leaves the state well formed: every cached class
    is still the specialization its key describes. *)
Lemma call_wf s root cls c m excs srcs :
  wf s root →
  classes s !! cls = Some c → cls = root ∨ is_Some (specializations c) →
  wf (ExceptionGroup_call cls m excs srcs s).2 root.
Proof.
  intros Hwf Hcls Hhow. rewrite call_state.
  destruct (specializations c) as [l|] eqn:Hc.
  - rewrite (__new___specialized s cls c) by (by rewrite ?Hc). by destruct excs.
  - destruct Hhow as [->|[? [=]]].
    rewrite (__new___base_case s root c) by done. by apply __getitem___wf.
Qed.

(** Assigning the flag before [__cause__] would lose a flag that is off. *)
Lemma flag_before_cause (g : exception_group) (cause : option nat) :
  __suppress_context__
    (foldl setattr g [Set__suppress_context__ false; Set__cause__ cause]) = true.
Proof. by destruct g. Qed.

(** [__context__] and [__cause__] may be assigned in either order. *)
Lemma context_cause_commute (g : exception_group) (ctx cause : option nat) :
  foldl setattr g [Set__context__ ctx; Set__cause__ cause] =
  foldl setattr g [Set__cause__ cause; Set__context__ ctx].
Proof. by destruct g. Qed.

Lemma foldl_setattr_obj (g : exception_group) (l : list assignment) :
  foldl setattr_obj (Initialised g) l = Initialised (foldl setattr g l).
Proof. revert g. induction l as [|a l IH]; intros g; simpl; [done|]. apply IH. Qed.

(** The copy of a group with at least one exception is the group the class
    of the original returns for its message, exceptions and sources, on which
    [__traceback__], [__context__], [__cause__] and then
    [__suppress_context__] are assigned in this order; it agrees with the
    original on all of them, whatever the flag, and the state is unchanged. *)
Lemma __copy___with_exceptions s self c :
  classes s !! __class__ self = Some c → is_Some (specializations c) →
  exceptions self ≠ [] →
  all_exceptions (exceptions self) = true →
  length (sources self) = length (exceptions self) →
  ∃ new_group,
    __copy__ self s = (Ok (Initialised new_group), s) ∧
    new_group =
      foldl setattr
        (ExcGroup (__class__ self) (message self, exceptions self, sources self)
                  (message self) (exceptions self) (sources self)
                  None None None false)
        [ Set__traceback__ (__traceback__ self);
          Set__context__ (__context__ self);
          Set__cause__ (__cause__ self);
          Set__suppress_context__ (__suppress_context__ self) ] ∧
    __class__ new_group = __class__ self ∧
    message new_group = message self ∧
    exceptions new_group = exceptions self ∧
    sources new_group = sources self ∧
    __traceback__ new_group = __traceback__ self ∧
    __context__ new_group = __context__ self ∧
    __cause__ new_group = __cause__ self ∧
    __suppress_context__ new_group = __suppress_context__ self.
Proof.
  intros Hcls Hc Hne Hexc Hlen. unfold __copy__. unfold_M.
  destruct (exceptions self) as [|exc excs] eqn:Hexcs; [done|].
  rewrite (call_specialized s (__class__ self) c) by done.
  rewrite __init___Ok by done. rewrite foldl_setattr_obj.
  eexists. split; [done|]. by split.
Qed.

(** ** More on the matcher *)

Lemma covered_accounted_iff (rs xs : list Cls) (incl : bool) :
  forallb (λ r, existsb (λ x, issubclass x r) xs) rs
  && (incl || forallb (λ x, issubclass_any x rs) xs) = true ↔
  (∀ r, r ∈ rs → ∃ x, x ∈ xs ∧ issubclass x r = true) ∧
  (incl = true ∨ ∀ x, x ∈ xs → ∃ r, r ∈ rs ∧ issubclass x r = true).
Proof.
  rewrite andb_true_iff, orb_true_iff, !forallb_elem_of.
  unfold issubclass_any. by setoid_rewrite existsb_elem_of.
Qed.

Lemma accepts_refl f : accepts f f.
Proof.
  unfold accepts. destruct (specializations f) as [rs|]; [|done].
  split; [|right]; intros r Hr; exists r; by rewrite issubclass_refl.
Qed.

(** The check between two classes of one base returns [True] exactly when
    the first accepts the second. *)
Lemma subclasscheck_accepts h F V f v :
  h !! F = Some f → h !! V = Some v → base_case v = base_case f →
  __subclasscheck__ h F (GroupClass V) = Ok true ↔ accepts f v.
Proof.
  intros HF HV Hbase. destruct (decide (F = V)) as [->|Hne].
  - rewrite __subclasscheck___same. simplify_eq.
    split; [intros _; apply accepts_refl|done].
  - rewrite (__subclasscheck___other h F V f v) by done.
    rewrite decide_False by (by intros []). unfold accepts.
    destruct (specializations f) as [rs|] eqn:Hf; [|done].
    destruct (specializations v) as [xs|] eqn:Hv.
    + rewrite (_subclasscheck_specialization_Some f v rs xs) by done.
      rewrite <-covered_accounted_iff. split; [by intros [= ->]|by intros ->].
    + unfold _subclasscheck_specialization, iter_specializations.
      rewrite Hf, Hv. destruct rs as [|r rs]; simpl.
      * destruct (inclusive f); simpl; split; try done. by intros [].
      * split; [done|]. by intros [].
Qed.

Lemma accepts_trans f v w :
  inclusive v = false ∨ inclusive f = true →
  accepts f v → accepts v w → accepts f w.
Proof.
  unfold accepts. intros Hflag.
  destruct (specializations f) as [rs|]; [|done].
  destruct (specializations v) as [xs|], (specializations w) as [ws|].
  - intros [Hcov Hacc] [Hcov' Hacc']. split.
    + intros r Hr. destruct (Hcov r Hr) as (x & Hx & Hxr).
      destruct (Hcov' x Hx) as (y & Hy & Hyx).
      exists y. split; [done|]. by eapply issubclass_trans.
    + destruct Hacc as [?|Hacc]; [by left|].
      destruct Hflag as [Hv|?]; [|by left].
      destruct Hacc' as [?|Hacc']; [congruence|]. right.
      intros y Hy. destruct (Hacc' y Hy) as (x & Hx & Hyx).
      destruct (Hacc x Hx) as (r & Hr & Hxr).
      exists r. split; [done|]. by eapply issubclass_trans.
  - intros [Hcov Hacc] [-> Hv].
    assert (inclusive f = true) as Hf by (destruct Hflag; congruence).
    split; [|done]. destruct rs as [|r rs]; [done|].
    destruct (Hcov r) as (x & Hx & _); [by left|]. by apply elem_of_nil in Hx.
  - intros [-> Hf] _. split; [|by left]. intros r Hr. by apply elem_of_nil in Hr.
  - done.
Qed.

(** X1: a class outside the family is never a subclass: a class of the
    hierarchy has no [base_case], and a class of another base is refused
    whatever its members. *)
Theorem subclasscheck_outside_family h F f :
  h !! F = Some f →
  (∀ k, __subclasscheck__ h F (PlainClass k) = Ok false) ∧
  (∀ V v, h !! V = Some v → base_case v ≠ base_case f →
          __subclasscheck__ h F (GroupClass V) = Ok false).
Proof.
  intros HF. split.
  - intros k. unfold __subclasscheck__. by rewrite decide_False.
  - intros V v HV Hbase. by apply (matches_other_base h F V f v).
Qed.

(** X2: asked about its own base case, a specialization with a member, or
    an exact one without, does not answer [False]: it raises the [TypeError] of
    iterating [None]. *)
Theorem subclasscheck_base_case_raises h F V f v rs :
  h !! F = Some f → h !! V = Some v → base_case v = base_case f →
  specializations f = Some rs → specializations v = None →
  rs ≠ [] ∨ inclusive f = false →
  __subclasscheck__ h F (GroupClass V) = Raise (TypeError NotIterable).
Proof.
  intros HF HV Hbase Hf Hv Hhow.
  assert (F ≠ V) by (intros ->; simplify_eq; congruence).
  rewrite (__subclasscheck___other h F V f v) by done.
  rewrite decide_False by (by intros []). rewrite Hf.
  unfold _subclasscheck_specialization, iter_specializations. rewrite Hf, Hv.
  destruct rs as [|r rs]; simpl; [|done].
  destruct Hhow as [?| ->]; done.
Qed.

(** X3: a specialization without members accepts, when inclusive, every
    class of its base, the base case included; when exact, among the
    specializations of its base just those without members. *)
Theorem subclasscheck_no_members h F V f v :
  h !! F = Some f → h !! V = Some v → base_case v = base_case f →
  specializations f = Some [] →
  (inclusive f = true → __subclasscheck__ h F (GroupClass V) = Ok true) ∧
  (inclusive f = false → ∀ xs, specializations v = Some xs →
     __subclasscheck__ h F (GroupClass V) = Ok (bool_decide (xs = []))).
Proof.
  intros HF HV Hbase Hf. split.
  - intros Hincl. apply (subclasscheck_accepts h F V f v); [done..|].
    unfold accepts. rewrite Hf, Hincl.
    destruct (specializations v); [|done].
    split; [|by left]. intros r Hr. by apply elem_of_nil in Hr.
  - intros Hincl xs Hv. destruct (decide (F = V)) as [->|Hne].
    + simplify_eq. rewrite __subclasscheck___same. by rewrite bool_decide_true.
    + rewrite (__subclasscheck___other h F V f v) by done.
      rewrite decide_False by (by intros []). rewrite Hf.
      rewrite (_subclasscheck_specialization_Some f v [] xs) by done.
      rewrite Hincl. by destruct xs.
Qed.

(** X4: the answer depends on the members as sets: listing the members of
    either class in another order, or twice, changes nothing. *)
Theorem _subclasscheck_specialization_sets f f' v v' rs rs' xs xs' :
  specializations f = Some rs → specializations f' = Some rs' →
  specializations v = Some xs → specializations v' = Some xs' →
  inclusive f = inclusive f' →
  (∀ r, r ∈ rs ↔ r ∈ rs') → (∀ x, x ∈ xs ↔ x ∈ xs') →
  _subclasscheck_specialization f v = _subclasscheck_specialization f' v'.
Proof.
  intros Hf Hf' Hv Hv' Hincl Hrs Hxs.
  rewrite (_subclasscheck_specialization_Some f v rs xs) by done.
  rewrite (_subclasscheck_specialization_Some f' v' rs' xs') by done.
  f_equal. rewrite <-Hincl. apply eq_true_iff_eq.
  rewrite !covered_accounted_iff.
  by repeat (setoid_rewrite Hrs || setoid_rewrite Hxs).
Qed.

(** X5: what the exact specialization accepts, the inclusive
    specialization of the same members accepts. *)
Theorem subclasscheck_inclusive_weaker h F F' V f f' v :
  h !! F = Some f → h !! F' = Some f' → h !! V = Some v →
  base_case f' = base_case f →
  specializations f' = specializations f → inclusive f' = true →
  __subclasscheck__ h F (GroupClass V) = Ok true →
  __subclasscheck__ h F' (GroupClass V) = Ok true.
Proof.
  intros HF HF' HV Hbase Hspecs Hincl Hsub.
  destruct (decide (base_case v = base_case f)) as [Hv|Hv].
  - apply (subclasscheck_accepts h F V f v) in Hsub; [|done..].
    apply (subclasscheck_accepts h F' V f' v); [done|done|congruence|].
    revert Hsub. unfold accepts. rewrite Hspecs, Hincl.
    destruct (specializations f) as [rs|]; [|done].
    destruct (specializations v) as [xs|]; [|by intros [-> _]].
    intros [Hcov _]. split; [done|by left].
  - by rewrite (matches_other_base h F V f v) in Hsub.
Qed.

(** X6: only the members of the class that is tested count, not its
    [inclusive] flag: two specializations of one base with the same members
    are subclasses of each other, so [ExceptionGroup[A, ...]] passes for
    [ExceptionGroup[A]]. *)
Theorem subclasscheck_same_members h F V f v rs xs :
  h !! F = Some f → h !! V = Some v → base_case v = base_case f →
  specializations f = Some rs → specializations v = Some xs →
  (∀ k, k ∈ rs ↔ k ∈ xs) →
  __subclasscheck__ h F (GroupClass V) = Ok true ∧
  __subclasscheck__ h V (GroupClass F) = Ok true.
Proof.
  intros HF HV Hbase Hf Hv Hsame. split.
  - apply (subclasscheck_accepts h F V f v); [done..|].
    unfold accepts. rewrite Hf, Hv.
    split; [|right]; intros k Hk; exists k; rewrite issubclass_refl;
      split; by try apply Hsame.
  - apply (subclasscheck_accepts h V F v f); [done..|].
    unfold accepts. rewrite Hf, Hv.
    split; [|right]; intros k Hk; exists k; rewrite issubclass_refl;
      split; by try apply Hsame.
Qed.

(** X7: the check is transitive through a class that is exact, or when
    the outer class is inclusive. *)
Theorem subclasscheck_transitive h F V W f v w :
  h !! F = Some f → h !! V = Some v → h !! W = Some w →
  inclusive v = false ∨ inclusive f = true →
  __subclasscheck__ h F (GroupClass V) = Ok true →
  __subclasscheck__ h V (GroupClass W) = Ok true →
  __subclasscheck__ h F (GroupClass W) = Ok true.
Proof.
  intros HF HV HW Hflag HFV HVW.
  destruct (decide (base_case v = base_case f)) as [Hv|Hv];
    [|by rewrite (matches_other_base h F V f v) in HFV].
  destruct (decide (base_case w = base_case v)) as [Hw|Hw];
    [|by rewrite (matches_other_base h V W v w) in HVW].
  apply (subclasscheck_accepts h F V f v) in HFV; [|done..].
  apply (subclasscheck_accepts h V W v w) in HVW; [|done..].
  apply (subclasscheck_accepts h F W f w); [done|done|congruence|].
  by apply (accepts_trans f v w).
Qed.

(** ** More on the registry *)

Lemma grows_refl s : grows s s.
Proof.
  split; [|done]. exists []. rewrite app_nil_r. split; [done|simpl; lia].
Qed.

Lemma _get_specialization_grows s cls item :
  grows s (_get_specialization cls item s).2.
Proof.
  destruct (_specs_cache s !! (list_to_set item : gset spec)) as [a|] eqn:Hc.
  - rewrite (_get_specialization_hit s cls item a) by done. apply grows_refl.
  - destruct (classes s !! cls) as [c|] eqn:Hcls.
    + destruct (_get_specialization_miss s cls c item) as [name ->]; [done..|].
      split; simpl.
      * eexists. split; [done|]. simpl. lia.
      * intros key b Hkey. rewrite lookup_insert_ne; [done|]. congruence.
    + unfold _get_specialization, deref. unfold_M. rewrite Hc, Hcls.
      apply grows_refl.
Qed.

Lemma __getitem___grows s cls item : grows s (__getitem__ cls item s).2.
Proof.
  destruct (classes s !! cls) as [c|] eqn:Hcls.
  - destruct (specializations c) as [l|] eqn:Hc.
    { rewrite (__getitem___specialized s cls c) by (by rewrite ?Hc).
      apply grows_refl. }
    destruct (valid_subscript item) eqn:Hv.
    + destruct item as [[|k|x]|children]; simpl in Hv; [| |done|].
      * rewrite (__getitem___Single s cls c) by done. apply grows_refl.
      * rewrite (__getitem___Single s cls c) by done. rewrite Hv.
        apply _get_specialization_grows.
      * rewrite (__getitem___Tuple s cls c) by done.
        apply _get_specialization_grows.
    + destruct (__getitem___invalid s cls c item) as (why & ->); [done..|].
      apply grows_refl.
  - unfold __getitem__, deref. unfold_M. rewrite Hcls. apply grows_refl.
Qed.

Lemma kind_in_key (key : gset spec) (k : Cls) :
  k ∈ omap kind_of (elements key) ↔ Kind k ∈ key.
Proof.
  rewrite list_elem_of_omap. setoid_rewrite elem_of_elements. split.
  - intros ([|k'] & Hx & Hk); simpl in Hk; by simplify_eq.
  - intros Hk. by exists (Kind k).
Qed.

Lemma child_in_key children (x : spec) :
  x ∈ frozenset children ↔
  match x with
  | Open => Ellipsis ∈ children
  | Kind k => ClassObj k ∈ children
  end.
Proof.
  unfold frozenset. rewrite elem_of_list_to_set, list_elem_of_omap. split.
  - intros ([|k|y] & Ho & Hx); simpl in Hx; by simplify_eq.
  - destruct x as [|k]; intros Hin; eexists; by split.
Qed.

(** In a well-formed state a class is cached under one key only. *)
Lemma cache_injective s root key1 key2 a :
  wf s root →
  _specs_cache s !! key1 = Some a → _specs_cache s !! key2 = Some a →
  key1 = key2.
Proof.
  intros Hwf H1 H2.
  destruct (wf_cache _ _ Hwf _ _ H1) as (c1 & Hc1 & Hs1 & Hi1 & _).
  destruct (wf_cache _ _ Hwf _ _ H2) as (c2 & Hc2 & Hs2 & Hi2 & _).
  simplify_eq. apply set_eq. intros [|k].
  - rewrite <-(bool_decide_eq_true (Open ∈ key1)),
            <-(bool_decide_eq_true (Open ∈ key2)). by rewrite <-Hi1, <-Hi2.
  - rewrite <-!kind_in_key. assert (omap kind_of (elements key1)
      = omap kind_of (elements key2)) as -> by congruence. done.
Qed.

(** What a subscript with a tuple comes to in a well-formed state. *)
Lemma __getitem___Tuple_Ok s root children a s' :
  wf s root →
  __getitem__ root (Tuple children) s = (Ok a, s') →
  forallb valid_child children = true ∧
  wf s' root ∧ grows s s' ∧
  _specs_cache s' !! frozenset children = Some a ∧
  ∃ c, classes s' !! a = Some c ∧
       specializations c = Some (omap kind_of (elements (frozenset children))) ∧
       inclusive c = bool_decide (Open ∈ frozenset children) ∧
       __bases__ c = [GroupClass root] ∧
       base_case c = GroupClass root.
Proof.
  intros Hwf Hget. pose proof Hwf as [(rc & Hroot & Hrc) _].
  destruct (forallb valid_child children) eqn:Hv.
  - split; [done|].
    pose proof (__getitem___wf s root (Tuple children) Hwf) as Hwf'.
    pose proof (__getitem___grows s root (Tuple children)) as Hgrows.
    rewrite Hget in Hwf', Hgrows. simpl in Hwf', Hgrows.
    rewrite (__getitem___Tuple s root rc) in Hget by done.
    destruct (_get_specialization_cached s root rc (omap spec_of children) Hroot)
      as (a' & s1 & Hget' & Hlook & _).
    rewrite Hget in Hget'. simplify_eq.
    split; [done|]. split; [done|]. split; [done|].
    by apply (wf_cache _ _ Hwf').
  - destruct (__getitem___Tuple_invalid s root rc children) as (why & Heq);
      [done..|]. by rewrite Heq in Hget.
Qed.

(** X8: a subscript, whatever it is given and whatever it returns, leaves
    the classes that exist as they are, adds at most one class, and takes
    nothing out of the cache. *)
Theorem __getitem___keeps_classes s cls item :
  (∃ new, classes (__getitem__ cls item s).2 = classes s ++ new ∧ length new ≤ 1) ∧
  (∀ key a, _specs_cache s !! key = Some a →
            _specs_cache (__getitem__ cls item s).2 !! key = Some a).
Proof. apply __getitem___grows. Qed.

(** X9: [cls[...]] on a base case is [cls] itself and creates nothing,
    whereas a tuple, be it [()] or [(...,)], gives a class other than [cls]. *)
Theorem __getitem___Ellipsis s root rc :
  wf s root → classes s !! root = Some rc →
  __getitem__ root (Single Ellipsis) s = (Ok root, s) ∧
  (∀ children a s', __getitem__ root (Tuple children) s = (Ok a, s') → a ≠ root).
Proof.
  intros Hwf Hroot. pose proof Hwf as [(rc' & Hroot' & Hrc) _]. simplify_eq.
  split; [by rewrite (__getitem___Single s root rc)|].
  intros children a s' Hget.
  destruct (__getitem___Tuple_Ok s root children a s' Hwf Hget)
    as (_ & _ & [(new & Hnew & _) _] & _ & c & Hc & Hspecs & _).
  intros ->. rewrite Hnew in Hc. rewrite (lookup_app_l_Some _ _ _ _ Hroot) in Hc.
  congruence.
Qed.

(** X10: in every state of the module, the class a tuple subscript
    returns is the specialization asked for: its members are the classes of
    the tuple, each once, and it is inclusive exactly when the tuple holds
    [...]; when the cache did not hold it, it is a new class whose only base
    and whose base case is the class subscripted. *)
Theorem __getitem___describes s cls children a s' :
  reachable s →
  __getitem__ cls (Tuple children) s = (Ok a, s') →
  ∃ c, classes s' !! a = Some c ∧
       (∀ k, k ∈ members c ↔ ClassObj k ∈ children) ∧
       NoDup (members c) ∧
       (inclusive c = true ↔ Ellipsis ∈ children) ∧
       (_specs_cache s !! frozenset children = None →
        a = length (classes s) ∧
        __bases__ c = [GroupClass cls] ∧ base_case c = GroupClass cls).
Proof.
  intros Hreach Hget.
  pose proof (reachable_inv _ (reachable_getitem s cls (Tuple children) Hreach))
    as Hinv'.
  rewrite Hget in Hinv'. simpl in Hinv'.
  destruct (__getitem___Tuple_cached _ _ _ _ _ Hget)
    as ((c0 & Hcls & Hc0) & Hv & Hspec & Hlook).
  destruct (inv_cache _ Hinv' _ _ Hlook) as (c & Hc & Hspecs & Hincl).
  exists c. unfold members. rewrite Hspecs, Hincl. simpl.
  split; [done|]. split; [|split; [|split]].
  - intros k. rewrite kind_in_key. apply (child_in_key children (Kind k)).
  - apply kinds_NoDup.
  - rewrite bool_decide_eq_true. apply (child_in_key children Open).
  - intros Hmiss.
    destruct (_get_specialization_miss s cls c0 (omap spec_of children))
      as [name Heq]; [done..|].
    rewrite Hspec in Heq. simplify_eq. simpl in Hc.
    rewrite lookup_app_r, Nat.sub_diag in Hc by done. simpl in Hc.
    injection Hc as <-. by repeat split.
Qed.

(** X11: two tuples of accepted children with different frozensets give
    two different classes. *)
Theorem __getitem___different_objects s root t1 t2 a1 s1 a2 s2 :
  wf s root →
  frozenset t1 ≠ frozenset t2 →
  __getitem__ root (Tuple t1) s = (Ok a1, s1) →
  __getitem__ root (Tuple t2) s1 = (Ok a2, s2) →
  a1 ≠ a2.
Proof.
  intros Hwf Hne Hget1 Hget2.
  destruct (__getitem___Tuple_Ok s root t1 a1 s1 Hwf Hget1)
    as (_ & Hwf1 & _ & Hlook1 & _).
  destruct (__getitem___Tuple_Ok s1 root t2 a2 s2 Hwf1 Hget2)
    as (_ & Hwf2 & [_ Hkeep] & Hlook2 & _).
  intros ->. apply Hne.
  by apply (cache_injective s2 root _ _ a2 Hwf2); [apply Hkeep|].
Qed.

(** X12: [cls[K]] and [cls[K,]] are the same class. *)
Theorem __getitem___Single_Tuple s cls c k :
  classes s !! cls = Some c → specializations c = None →
  issubclass k BaseException = true →
  ∃ a s1, __getitem__ cls (Single (ClassObj k)) s = (Ok a, s1) ∧
          __getitem__ cls (Tuple [ClassObj k]) s1 = (Ok a, s1).
Proof.
  intros Hcls Hc Hk.
  rewrite (__getitem___Single s cls c) by done. rewrite Hk.
  destruct (_get_specialization_cached s cls c [Kind k] Hcls)
    as (a & s1 & -> & Hlook & new & Hnew).
  exists a, s1. split; [done|].
  assert (classes s1 !! cls = Some c) as Hcls1.
  { rewrite Hnew. by apply lookup_app_l_Some. }
  rewrite (__getitem___Tuple s1 cls c); [|done|done|by simpl; rewrite Hk].
  by apply _get_specialization_hit.
Qed.

(** ** More on construction *)

Lemma Kind_in_frozenset children (k : Cls) :
  Kind k ∈ frozenset children ↔ ClassObj k ∈ children.
Proof. apply (child_in_key children (Kind k)). Qed.

Lemma Open_in_frozenset children : Open ∈ frozenset children ↔ Ellipsis ∈ children.
Proof. apply (child_in_key children Open). Qed.

Lemma type_in_types excs (k : Cls) :
  ClassObj k ∈ (λ child, ClassObj (type child)) <$> excs ↔
  ∃ exc, exc ∈ excs ∧ type exc = k.
Proof.
  rewrite list_elem_of_fmap. split.
  - intros (exc & [= ->] & Hexc). eauto.
  - intros (exc & Hexc & <-). eauto.
Qed.

Lemma check_types excs :
  all_gen check_child ((λ child, ClassObj (type child)) <$> excs)
  = Ok (forallb (λ exc, isinstance exc BaseException) excs).
Proof.
  induction excs as [|exc excs IH]; [done|]. csimpl. unfold isinstance at 1.
  unfold mbind, result_bind. by destruct (issubclass (type exc) BaseException).
Qed.

(** X13: [__init__] reports the first member that is not an instance of
    [Exception], before it looks at the sources. *)
Theorem __init___first_offender self m pre exc post srcs :
  all_exceptions pre = true →
  isinstance exc Exception = false →
  __init__ self m (pre ++ exc :: post) srcs
  = Raise (TypeError (ExpectedExceptionObject exc)).
Proof.
  intros Hpre Hexc. unfold __init__.
  assert (check_exceptions (pre ++ exc :: post)
          = Raise (TypeError (ExpectedExceptionObject exc))) as ->; [|done].
  induction pre as [|exc0 pre IH]; simpl.
  - by rewrite Hexc.
  - simpl in Hpre. apply andb_true_iff in Hpre as [-> Hpre]. by apply IH.
Qed.

(** X14: a call of the base case with a member whose class does not derive
    from [BaseException] is refused by the subscript made in [__new__], before
    [__init__] runs: no class is created. *)
Theorem call_rejects_other_objects s root rc m excs srcs exc :
  classes s !! root = Some rc → specializations rc = None →
  exc ∈ excs → isinstance exc BaseException = false →
  ExceptionGroup_call root m excs srcs s
  = (Raise (TypeError ExpectedTupleOfSubclasses), s).
Proof.
  intros Hroot Hrc Hin Hexc. unfold ExceptionGroup_call. unfold_M.
  rewrite (__new___base_case s root rc) by done.
  unfold __getitem__, deref. unfold_M. rewrite Hroot, Hrc, check_types.
  assert (forallb (λ exc, isinstance exc BaseException) excs = false) as ->; [|done].
  apply not_true_is_false. intros Hall.
  pose proof (proj1 (forallb_elem_of _ _) Hall exc Hin) as Hexc'.
  simpl in Hexc'. congruence.
Qed.

Lemma types_valid_base excs :
  forallb (λ exc, isinstance exc BaseException) excs = true →
  forallb valid_child ((λ child, ClassObj (type child)) <$> excs) = true.
Proof.
  induction excs as [|exc excs IH]; [done|]. csimpl.
  intros [Hexc Hl]%andb_true_iff. apply andb_true_iff. split; [exact Hexc|by apply IH].
Qed.

(** X15: in every state of the module, once the classes of the members
    pass the subscript, the specialization for them is in the cache after a
    call of a base case, also when [__init__] then refuses a member, as it
    does whenever it runs on a member that is not an instance of
    [Exception]. *)
Theorem call_caches_class s cls c m excs srcs :
  reachable s →
  classes s !! cls = Some c → specializations c = None →
  forallb (λ exc, isinstance exc BaseException) excs = true →
  is_Some (_specs_cache (ExceptionGroup_call cls m excs srcs s).2
             !! list_to_set ((λ child, Kind (type child)) <$> excs)) ∧
  (all_exceptions excs = false →
   (∃ exc, exc ∈ excs ∧ isinstance exc Exception = false ∧
           (ExceptionGroup_call cls m excs srcs s).1
           = Raise (TypeError (ExpectedExceptionObject exc))) ∨
   (∃ obj, (ExceptionGroup_call cls m excs srcs s).1 = Ok obj ∧
           skipped cls obj (ExceptionGroup_call cls m excs srcs s).2)).
Proof.
  intros Hreach Hcls Hc Hbase.
  destruct (call_base_case s cls c m excs srcs (reachable_inv _ Hreach) Hcls Hc
              (types_valid_base excs Hbase))
    as (a & s' & Hlook & [->|[-> Hskip]]); simpl.
  - split; [by eexists|]. intros Hall. left.
    destruct (__init___TypeError a m excs srcs Hall) as (exc & ? & ? & ->). eauto.
  - split; [by eexists|]. intros _. right. by eexists.
Qed.

(** The state after a call of a base case, when the call returns. *)
Lemma call_base_case_Ok s cls c m excs srcs obj s1 :
  classes s !! cls = Some c → specializations c = None →
  ExceptionGroup_call cls m excs srcs s = (Ok obj, s1) →
  __getitem__ cls (Tuple ((λ child, ClassObj (type child)) <$> excs)) s
  = (Ok (instance_class obj), s1).
Proof.
  intros Hcls Hc Hcall. destruct (call_Ok_inv _ _ _ _ _ _ _ Hcall) as [Hnew _].
  by rewrite (__new___base_case s cls c) in Hnew.
Qed.

(** X16: in every state of the module, an object built by a call of a
    base case is an instance of [cls'[children]] exactly when the two classes
    have the same base case, each class among the children has an instance
    among the exceptions and, unless the children hold [...], each exception
    is an instance of one of them; the base cases agree when the store holds
    the family of the one class called and subscripted. *)
Theorem caught_iff s cls m excs srcs obj s1 cls' children F s2 :
  reachable s →
  (∃ c, classes s !! cls = Some c ∧ specializations c = None) →
  ExceptionGroup_call cls m excs srcs s = (Ok obj, s1) →
  __getitem__ cls' (Tuple children) s1 = (Ok F, s2) →
  ∃ f v,
    classes s2 !! F = Some f ∧ classes s2 !! instance_class obj = Some v ∧
    (__instancecheck__ (classes s2) F (GroupClass (instance_class obj)) = Ok true ↔
       base_case v = base_case f ∧
       (∀ k, ClassObj k ∈ children → ∃ exc, exc ∈ excs ∧ isinstance exc k = true) ∧
       (Ellipsis ∈ children ∨
        ∀ exc, exc ∈ excs → ∃ k, ClassObj k ∈ children ∧ isinstance exc k = true)) ∧
    (wf s cls → cls' = cls → base_case v = base_case f).
Proof.
  intros Hreach (c & Hcls & Hc) Hcall HF.
  pose proof (reachable_call s cls m excs srcs Hreach) as Hreach1.
  rewrite Hcall in Hreach1. simpl in Hreach1.
  pose proof (reachable_inv _ (reachable_getitem s1 cls' (Tuple children) Hreach1))
    as Hinv2.
  pose proof (__getitem___grows s1 cls' (Tuple children)) as [_ Hkeep].
  rewrite HF in Hinv2, Hkeep. simpl in Hinv2, Hkeep.
  pose proof (call_base_case_Ok s cls c m excs srcs obj s1 Hcls Hc Hcall) as Hnew.
  destruct (__getitem___Tuple_cached _ _ _ _ _ Hnew) as (_ & _ & _ & Hlook1).
  destruct (__getitem___Tuple_cached _ _ _ _ _ HF) as (_ & _ & _ & Hlook2).
  destruct (inv_cache _ Hinv2 _ _ Hlook2) as (f & Hf & Hfs & Hfi).
  destruct (inv_cache _ Hinv2 _ _ (Hkeep _ _ Hlook1)) as (v & Hv & Hvs & _).
  exists f, v. split; [done|]. split; [done|]. split.
  - unfold __instancecheck__.
    destruct (decide (base_case v = base_case f)) as [Hbase|Hbase].
    + rewrite (subclasscheck_accepts (classes s2) F _ f v) by done.
      unfold accepts. rewrite Hfs, Hvs, Hfi, bool_decide_eq_true, Open_in_frozenset.
      setoid_rewrite kind_in_key. setoid_rewrite Kind_in_frozenset.
      setoid_rewrite type_in_types. unfold isinstance. split.
      * intros [Hcov Hacc]. split; [done|]. split.
        -- intros k Hk. destruct (Hcov k Hk) as (x & (exc & Hexc & <-) & Hsub). eauto.
        -- destruct Hacc as [?|Hacc]; [by left|right]. intros exc Hexc.
           apply (Hacc (type exc)). eauto.
      * intros (_ & Hcov & Hacc). split.
        -- intros k Hk. destruct (Hcov k Hk) as (exc & Hexc & Hsub). eauto.
        -- destruct Hacc as [?|Hacc]; [by left|right].
           intros x (exc & Hexc & <-). by apply Hacc.
    + rewrite (matches_other_base (classes s2) F _ f v) by done.
      split; [done|]. by intros [? _].
  - intros Hwf ->.
    pose proof (__getitem___wf s cls
                  (Tuple ((λ child, ClassObj (type child)) <$> excs)) Hwf) as Hwf1.
    rewrite Hnew in Hwf1. simpl in Hwf1.
    pose proof (__getitem___wf s1 cls (Tuple children) Hwf1) as Hwf2.
    rewrite HF in Hwf2. simpl in Hwf2.
    destruct (wf_cache _ _ Hwf2 _ _ Hlook2) as (f' & Hf' & _ & _ & _ & Hfb).
    destruct (wf_cache _ _ Hwf2 _ _ (Hkeep _ _ Hlook1)) as (v' & Hv' & _ & _ & _ & Hvb).
    simplify_eq. congruence.
Qed.

(** X17: in every state of the module, an object built by a call of a
    base case that is its own [base_case] is an instance of that base case
    exactly when the class it was given has it as base case, which is so when
    the store holds the family of that one base case. *)
Theorem call_instance_of_base_case s cls c m excs srcs obj s1 :
  reachable s →
  classes s !! cls = Some c → specializations c = None →
  base_case c = GroupClass cls →
  ExceptionGroup_call cls m excs srcs s = (Ok obj, s1) →
  ∃ v, classes s1 !! instance_class obj = Some v ∧
       __instancecheck__ (classes s1) cls (GroupClass (instance_class obj))
       = Ok (bool_decide (base_case v = GroupClass cls)) ∧
       (wf s cls → base_case v = GroupClass cls).
Proof.
  intros Hreach Hcls Hc Hbase Hcall.
  pose proof (reachable_inv _ (reachable_call s cls m excs srcs Hreach)) as Hinv1.
  rewrite Hcall in Hinv1. simpl in Hinv1.
  pose proof (call_base_case_Ok s cls c m excs srcs obj s1 Hcls Hc Hcall) as Hnew.
  pose proof (__getitem___grows s cls
                (Tuple ((λ child, ClassObj (type child)) <$> excs)))
    as [(new & Hnew' & _) _].
  rewrite Hnew in Hnew'. simpl in Hnew'.
  assert (classes s1 !! cls = Some c) as Hcls1.
  { rewrite Hnew'. by apply lookup_app_l_Some. }
  destruct (__getitem___Tuple_cached _ _ _ _ _ Hnew) as (_ & _ & _ & Hlook).
  destruct (inv_cache _ Hinv1 _ _ Hlook) as (v & Hv & _).
  exists v. split; [done|]. split.
  - unfold __instancecheck__.
    destruct (decide (base_case v = GroupClass cls)) as [Hvb|Hvb].
    + rewrite bool_decide_true by done.
      apply (subclasscheck_accepts (classes s1) cls _ c v); [done|done|congruence|].
      unfold accepts. by rewrite Hc.
    + rewrite bool_decide_false by done.
      apply (matches_other_base (classes s1) cls _ c v); [done|done|congruence].
  - intros Hwf. pose proof (__getitem___wf s cls
                  (Tuple ((λ child, ClassObj (type child)) <$> excs)) Hwf) as Hwf1.
    rewrite Hnew in Hwf1. simpl in Hwf1.
    destruct (wf_cache _ _ Hwf1 _ _ Hlook) as (v' & Hv' & _ & _ & _ & Hvb).
    by simplify_eq.
Qed.

(** ** More on copy and display *)

Lemma __copy___empty s self c :
  classes s !! __class__ self = Some c → is_Some (specializations c) →
  exceptions self = [] →
  __copy__ self s = (Raise (TypeError EmptySpecialisation), s).
Proof.
  intros Hcls Hc Hexcs. unfold __copy__. unfold_M.
  rewrite (call_new_raises s (__class__ self) (message self) (exceptions self)
             (sources self) (TypeError EmptySpecialisation) s); [done|].
  rewrite (__new___specialized s (__class__ self) c) by done. by rewrite Hexcs.
Qed.

(** X18: a group without exceptions cannot be copied: its class is a
    specialization, and [__copy__] calls it without exceptions. *)
Theorem __copy___empty_raises s self c :
  classes s !! __class__ self = Some c → is_Some (specializations c) →
  exceptions self = [] →
  __copy__ self s = (Raise (TypeError EmptySpecialisation), s).
Proof. apply __copy___empty. Qed.

Lemma __copy___specialized s self c exc excs :
  classes s !! __class__ self = Some c → is_Some (specializations c) →
  exceptions self = exc :: excs →
  __copy__ self s =
    (match __init__ (__class__ self) (message self) (exceptions self) (sources self) with
     | Ok new_group => Ok (Initialised (foldl setattr new_group (copy_assignments self)))
     | Raise e => Raise e
     end, s).
Proof.
  intros Hcls Hc Hexcs. unfold __copy__, mbind, M_bind. rewrite Hexcs.
  rewrite (call_specialized s (__class__ self) c) by done.
  destruct (__init__ _ _ _ _); [|done]. unfold mret, M_ret.
  by rewrite foldl_setattr_obj.
Qed.

(** X19: what [__copy__] returns is a group that is its own copy, and the
    copy of a group whose [args] are its message, exceptions and sources is
    the group again. *)
Theorem __copy___idempotent s self c obj s' :
  classes s !! __class__ self = Some c → is_Some (specializations c) →
  __copy__ self s = (Ok obj, s') →
  ∃ new_group,
    obj = Initialised new_group ∧
    __copy__ new_group s = (Ok (Initialised new_group), s) ∧
    (args self = (message self, exceptions self, sources self) → new_group = self).
Proof.
  intros Hcls Hc. destruct self as [cl ar msg excs srcs tb ctx cause sup].
  simpl in *. destruct excs as [|exc excs].
  { by rewrite (__copy___empty s _ c). }
  rewrite (__copy___specialized s _ c exc excs) by done. simpl.
  destruct (__init__ cl msg (exc :: excs) srcs) as [g|e] eqn:Hinit; [|done].
  intros [= <- <-]. apply __init___Ok_inv in Hinit as (Hexc & Hlen & ->). simpl.
  eexists. split; [reflexivity|]. split.
  - rewrite (__copy___specialized s _ c exc excs) by done. simpl.
    by rewrite __init___Ok by done.
  - by intros ->.
Qed.

Lemma string_app_assoc (a b c : string) : (a +:+ b) +:+ c = a +:+ b +:+ c.
Proof.
  induction a as [|x a IH]; [done|].
  change (String x ((a +:+ b) +:+ c) = String x (a +:+ b +:+ c)). by f_equal.
Qed.

Lemma string_app_empty_r (a : string) : a +:+ "" = a.
Proof.
  induction a as [|x a IH]; [done|].
  change (String x (a +:+ "") = String x a). by f_equal.
Qed.

Lemma occurs_in_here (x after : string) : occurs_in x (x +:+ after).
Proof. by exists "", after. Qed.

Lemma occurs_in_app_r (x before s : string) :
  occurs_in x s → occurs_in x (before +:+ s).
Proof.
  intros (b & a & ->). exists (before +:+ b), a. by rewrite string_app_assoc.
Qed.

Lemma occurs_in_app_l (x s after : string) :
  occurs_in x s → occurs_in x (s +:+ after).
Proof.
  intros (b & a & ->). exists b, (a +:+ after). by rewrite !string_app_assoc.
Qed.

Lemma concat_cons (sep x y : string) (l : list string) :
  String.concat sep (x :: y :: l) = x +:+ sep +:+ String.concat sep (y :: l).
Proof. done. Qed.

Lemma occurs_in_concat (sep x : string) (l : list string) :
  x ∈ l → occurs_in x (String.concat sep l).
Proof.
  induction l as [|y l IH]; [by intros ?%elem_of_nil|].
  intros [->|Hx]%elem_of_cons.
  - destruct l as [|z l]; [|rewrite concat_cons; apply occurs_in_here].
    exists "", "". by rewrite string_app_empty_r.
  - destruct l as [|z l]; [by apply elem_of_nil in Hx|]. rewrite concat_cons.
    by apply occurs_in_app_r, occurs_in_app_r, IH.
Qed.

Lemma concat_app (sep : string) (l1 l2 : list string) :
  l1 ≠ [] → l2 ≠ [] →
  String.concat sep (l1 ++ l2)
  = String.concat sep l1 +:+ sep +:+ String.concat sep l2.
Proof.
  intros H1 H2. induction l1 as [|x l1 IH]; [done|].
  destruct l1 as [|y l1].
  - destruct l2 as [|z l2]; [done|]. by rewrite <-concat_cons.
  - rewrite <-!app_comm_cons, !concat_cons. rewrite app_comm_cons, IH by done.
    by rewrite !string_app_assoc.
Qed.

(** X20: [str(group)] is empty for no exceptions and otherwise shows the
    [repr] of every exception, and so does [repr(group)], inside its fixed
    frame. *)
Theorem __str___shows_exceptions self :
  (exceptions self = [] → __str__ self = "") ∧
  (∀ exc, exc ∈ exceptions self →
     occurs_in (repr exc) (__str__ self) ∧ occurs_in (repr exc) (__repr__ self)) ∧
  __repr__ self = "<ExceptionGroup: " +:+ __str__ self +:+ ">".
Proof.
  split; [|split; [|done]].
  - unfold __str__. by intros ->.
  - intros exc Hexc.
    assert (occurs_in (repr exc) (__str__ self)) as Hstr.
    { apply occurs_in_concat, list_elem_of_fmap. eauto. }
    split; [done|]. by apply occurs_in_app_r, occurs_in_app_l.
Qed.

(** X21: [str] keeps the order of the exceptions: for two groups with
    exceptions, the group holding the exceptions of the first and then those
    of the second displays as the two displays joined by a comma. *)
Theorem __str___app self self1 self2 :
  exceptions self = exceptions self1 ++ exceptions self2 →
  exceptions self1 ≠ [] → exceptions self2 ≠ [] →
  __str__ self = __str__ self1 +:+ ", " +:+ __str__ self2.
Proof.
  intros Hexcs H1 H2. unfold __str__. rewrite Hexcs, fmap_app.
  apply concat_app; by intros ?%fmap_nil_inv.
Qed.

End exceptiongroup.

(** ** The module at work on the builtin classes *)

Module Examples.
Import Builtins.

Local Abbreviation state := (state (Cls:=builtin)) (only parsing).
Local Abbreviation group_class := (group_class (Cls:=builtin)) (only parsing).
Local Abbreviation exception_group := (exception_group (Cls:=builtin)) (only parsing).
Local Abbreviation value := (value (Cls:=builtin)) (only parsing).

Definition run {A} (call : M (Cls:=builtin) A) (s : state) : state := (call s).2.

(** The state after, in this order, [ExceptionGroup[()]],
    [ExceptionGroup[KeyError]], [ExceptionGroup[KeyError, RuntimeError]],
    [ExceptionGroup[LookupError, RuntimeError]],
    [ExceptionGroup[KeyError, RuntimeError, ...]] and
    [ExceptionGroup[KeyError, RuntimeError, TypeError]]; the classes get the
    addresses 1 to 6. *)
Definition session : state :=
  run (__getitem__ ExceptionGroup
         (Tuple [ClassObj KeyError; ClassObj RuntimeError; ClassObj TypeError_]))
  (run (__getitem__ ExceptionGroup
          (Tuple [ClassObj KeyError; ClassObj RuntimeError; Ellipsis]))
  (run (__getitem__ ExceptionGroup (Tuple [ClassObj LookupError; ClassObj RuntimeError]))
  (run (__getitem__ ExceptionGroup (Tuple [ClassObj KeyError; ClassObj RuntimeError]))
  (run (__getitem__ ExceptionGroup (Single (ClassObj KeyError)))
  (run (__getitem__ ExceptionGroup (Tuple [])) initial_state))))).

Definition EG_root : group_class :=
  GroupCls "ExceptionGroup" [PlainClass BaseException_] (GroupClass 0) true None.
Definition EG_empty : group_class :=
  GroupCls "ExceptionGroup[]" [GroupClass 0] (GroupClass 0) false (Some []).
Definition EG_KeyError : group_class :=
  GroupCls "ExceptionGroup[KeyError]" [GroupClass 0] (GroupClass 0) false
           (Some [KeyError]).
Definition EG_KeyError_RuntimeError : group_class :=
  GroupCls "ExceptionGroup[KeyError, RuntimeError]" [GroupClass 0] (GroupClass 0) false
           (Some [KeyError; RuntimeError]).
Definition EG_RuntimeError_LookupError : group_class :=
  GroupCls "ExceptionGroup[RuntimeError, LookupError]" [GroupClass 0] (GroupClass 0)
           false (Some [RuntimeError; LookupError]).

Definition a_KeyError : value := Value KeyError "KeyError()".
Definition a_RuntimeError : value := Value RuntimeError "RuntimeError('B')".
Definition a_ValueError : value := Value ValueError_ "ValueError('A')".
Definition a_KeyboardInterrupt : value := Value KeyboardInterrupt "KeyboardInterrupt()".
Definition a_str : value := Value str "'error2'".

(** [ExceptionGroup("message", [KeyError(), RuntimeError()], ["first", "second"])]
    in the freshly imported module. *)
Definition raised : exception_group :=
  ExcGroup 1 ("message", [a_KeyError; a_RuntimeError], ["first"; "second"])
           "message" [a_KeyError; a_RuntimeError] ["first"; "second"]
           None None None false.
Definition after_raised : state :=
  run (ExceptionGroup_call ExceptionGroup "message" [a_KeyError; a_RuntimeError]
         ["first"; "second"]) initial_state.

(** [ExceptionGroup("nothing", [], [])] in the freshly imported module: an
    instance of [ExceptionGroup[]]. *)
Definition empty_group : exception_group :=
  ExcGroup 1 ("nothing", [], []) "nothing" [] [] None None None false.
Definition after_empty_group : state :=
  run (ExceptionGroup_call ExceptionGroup "nothing" [] []) initial_state.

(** An instance of [ExceptionGroup[KeyError]] with its chaining attributes as
    [raise ... from e] leaves them, or with the flag reset. *)
Definition chained (flag : bool) : exception_group :=
  ExcGroup 2 ("ManyError", [a_KeyError], ["s"]) "ManyError" [a_KeyError] ["s"]
           (Some 11) (Some 12) (Some 12) flag.

(** The classes of the session and of the two calls. *)
Lemma classes_session :
  classes session !! 0 = Some EG_root ∧
  classes session !! 1 = Some EG_empty ∧
  classes session !! 2 = Some EG_KeyError ∧
  classes session !! 3 = Some EG_KeyError_RuntimeError ∧
  classes session !! 4 = Some EG_RuntimeError_LookupError.
Proof. vm_compute. done. Qed.

Lemma classes_initial_state : classes initial_state !! ExceptionGroup = Some EG_root.
Proof. reflexivity. Qed.

(** The tests of the repository. *)
Example test_exception_group_init :
  (ExceptionGroup_call ExceptionGroup "message" [a_KeyError; a_RuntimeError]
     ["first"; "second"] initial_state).1 = Ok (Initialised raised).
Proof. vm_compute. reflexivity. Qed.

Example test_exception_group_when_members_are_not_exceptions :
  (ExceptionGroup_call ExceptionGroup "error" [a_RuntimeError; a_str]
     ["RuntimeError"; "error2"] initial_state).1
  = Raise (TypeError ExpectedTupleOfSubclasses).
Proof. vm_compute. reflexivity. Qed.

Example test_exception_group_in_except :
  __instancecheck__ (classes after_raised) 1 (GroupClass (__class__ raised)) = Ok true ∧
  __subclasscheck__ (classes session) 2 (GroupClass 3) = Ok false ∧
  __subclasscheck__ (classes session) 3 (GroupClass 3) = Ok true.
Proof. vm_compute. done. Qed.

Example test_exception_group_covariant :
  __subclasscheck__ (classes session) 4 (GroupClass 3) = Ok true ∧
  __subclasscheck__ (classes session) 5 (GroupClass 6) = Ok true ∧
  __subclasscheck__ (classes session) 3 (GroupClass 6) = Ok false.
Proof. vm_compute. done. Qed.

(** A filter with a member raises on the base case. *)
Example issubclass_base_case_raises :
  __subclasscheck__ (classes session) 2 (GroupClass 0) = Raise (TypeError NotIterable).
Proof. vm_compute. reflexivity. Qed.

(** *** The matcher on the session *)

(** [ExceptionGroup[LookupError, RuntimeError]] against
    [ExceptionGroup[KeyError, RuntimeError]]. *)
Lemma matches_specialized_iff_witness :
  __subclasscheck__ (classes session) 4 (GroupClass 3) = Ok true ↔
    (∀ r, r ∈ members EG_RuntimeError_LookupError →
       ∃ x, x ∈ members EG_KeyError_RuntimeError ∧ issubclass x r = true) ∧
    (inclusive EG_RuntimeError_LookupError = true ∨
     ∀ x, x ∈ members EG_KeyError_RuntimeError →
       ∃ r, r ∈ members EG_RuntimeError_LookupError ∧ issubclass x r = true).
Proof.
  apply (matches_specialized_iff (classes session) 4 3
           EG_RuntimeError_LookupError EG_KeyError_RuntimeError
           RuntimeError [LookupError]); vm_compute; reflexivity.
Defined.

Lemma matches_base_case_witness :
  __subclasscheck__ (classes session) ExceptionGroup (GroupClass 3) = Ok true.
Proof.
  apply (matches_base_case (classes session) ExceptionGroup 3
           EG_root EG_KeyError_RuntimeError); vm_compute; reflexivity.
Defined.

(** C5, as first stated, fails: [ExceptionGroup[()]] has no member and
    the base of [ExceptionGroup[KeyError]], and does not accept it:
    [issubclass(ExceptionGroup[KeyError], ExceptionGroup[()])] is [False]. *)
Lemma empty_specialization_rejects_KeyError :
  classes session !! 1 = Some EG_empty ∧
  classes session !! 2 = Some EG_KeyError ∧
  members EG_empty = [] ∧
  base_case EG_KeyError = base_case EG_empty ∧
  __subclasscheck__ (classes session) 1 (GroupClass 2) = Ok false.
Proof. vm_compute. done. Qed.

(** *** The registry on the session *)

(** [ExceptionGroup[KeyError][KeyError]] raises and changes nothing. *)
Lemma __getitem___raises_iff_witness :
  (∃ e, (__getitem__ 2 (Single (ClassObj KeyError)) session).1 = Raise e) ∧
  (__getitem__ 2 (Single (ClassObj KeyError)) session).2 = session.
Proof.
  destruct (__getitem___raises_iff session 2 EG_KeyError (Single (ClassObj KeyError)))
    as [Hiff Hstate]; [vm_compute; reflexivity|].
  assert (∃ e, (__getitem__ 2 (Single (ClassObj KeyError)) session).1 = Raise e)
    as [e He].
  { apply Hiff. left. by eexists. }
  split; [by exists e|]. by destruct (Hstate e He).
Defined.

(** C7, as first stated, fails: [ExceptionGroup[()]] has no member and
    [KeyError] is an exception class, yet [ExceptionGroup[()][KeyError]]
    raises. *)
Lemma empty_specialization_not_subscriptable :
  classes session !! 1 = Some EG_empty ∧
  members EG_empty = [] ∧
  valid_subscript (Single (ClassObj KeyError)) = true ∧
  (__getitem__ 1 (Single (ClassObj KeyError)) session).1
    = Raise (TypeError AlreadySpecialized).
Proof. vm_compute. done. Qed.

(** [ExceptionGroup[KeyError, RuntimeError, KeyError]] and
    [ExceptionGroup[RuntimeError, KeyError]]. *)
Lemma __getitem___same_object_witness :
  ∃ a s1,
    __getitem__ ExceptionGroup
      (Tuple [ClassObj KeyError; ClassObj RuntimeError; ClassObj KeyError])
      initial_state = (Ok a, s1) ∧
    __getitem__ ExceptionGroup (Tuple [ClassObj RuntimeError; ClassObj KeyError]) s1
      = (Ok a, s1).
Proof.
  apply (__getitem___same_object initial_state ExceptionGroup EG_root);
    [reflexivity..|].
  apply (bool_decide_unpack _). by vm_compute.
Defined.

(** *** Construction and copy *)


(** [ExceptionGroup[KeyError]("m", [], ["s"])] and
    [ExceptionGroup("nothing", [], [])]. *)
Lemma call_without_exceptions_witness :
  ExceptionGroup_call 2 "m" [] ["s"] session
    = (Raise (TypeError EmptySpecialisation), session) ∧
  ∃ obj s', ExceptionGroup_call ExceptionGroup "nothing" [] [] initial_state
              = (Ok obj, s') ∧
            ((∃ g, obj = Initialised g ∧ exceptions g = [] ∧ sources g = []) ∨
             skipped ExceptionGroup obj s').
Proof.
  split.
  - apply (call_without_exceptions session 2 EG_KeyError "m" ["s"]);
      [vm_compute; reflexivity|discriminate].
  - apply (call_without_exceptions initial_state ExceptionGroup EG_root "nothing" []);
      [reflexivity|apply reachable_import|reflexivity].
Defined.

(** [ExceptionGroup("many error.", [ValueError("A"), RuntimeError("B")], ["A"])] *)
Lemma call_sources_mismatch_witness :
  (ExceptionGroup_call ExceptionGroup "many error." [a_ValueError; a_RuntimeError] ["A"]
     initial_state).1 = Raise (ValueError 1 2).
Proof.
  destruct (call_sources_mismatch initial_state ExceptionGroup EG_root "many error."
              [a_ValueError; a_RuntimeError] ["A"])
    as (_ & _ & Hroot);
    [reflexivity|left; split; [reflexivity|apply reachable_import]|reflexivity|].
  destruct (Hroot (or_introl eq_refl)) as [Hiff _]. apply Hiff. simpl. lia.
Defined.

(** [ExceptionGroup[KeyboardInterrupt]] is a class, a group holding a
    [KeyboardInterrupt()] is not to be had. *)
Lemma members_checked_more_narrowly_witness :
  (∃ a s', __getitem__ ExceptionGroup (Single (ClassObj KeyboardInterrupt)) initial_state
             = (Ok a, s')) ∧
  (∃ why, (ExceptionGroup_call ExceptionGroup "m" [a_KeyboardInterrupt] ["s"]
             initial_state).1 = Raise (TypeError why)).
Proof.
  destruct (members_checked_more_narrowly initial_state a_KeyboardInterrupt)
    as (Hsub & Hcall & _); [apply reachable_import|reflexivity|reflexivity|].
  split; [exact Hsub|].
  destruct (Hcall ExceptionGroup EG_root "m" [a_KeyboardInterrupt] ["s"])
    as [Hroot _]; [reflexivity|by left|].
  apply Hroot. by left.
Defined.

(** [ExceptionGroup[KeyError]("m", [RuntimeError("B")], ["s"])]: the class of
    the group is [ExceptionGroup[KeyError]]. *)
Lemma call_specialized_keeps_class_witness :
  ∃ g, ExceptionGroup_call 2 "m" [a_RuntimeError] ["s"] session
         = (Ok (Initialised g), session) ∧
       __class__ g = 2 ∧ message g = "m" ∧
       exceptions g = [a_RuntimeError] ∧ sources g = ["s"].
Proof.
  apply (call_specialized_keeps_class session 2 EG_KeyError "m" [a_RuntimeError] ["s"]);
    [vm_compute; reflexivity|discriminate|discriminate|reflexivity|reflexivity].
Defined.

Example RuntimeError_not_a_member_of_EG_KeyError :
  issubclass_any (type a_RuntimeError) (members EG_KeyError) = false.
Proof. reflexivity. Qed.

(** [copy.copy] of a chained group, with the flag on and off. *)
Lemma __copy___of_chained :
  (∃ g, __copy__ (chained true) session = (Ok (Initialised g), session) ∧
        __cause__ g = Some 12 ∧ __suppress_context__ g = true) ∧
  (∃ g, __copy__ (chained false) session = (Ok (Initialised g), session) ∧
        __cause__ g = Some 12 ∧ __suppress_context__ g = false).
Proof.
  split.
  - destruct (__copy___with_exceptions session (chained true) EG_KeyError)
      as (g & Hg & _ & _ & _ & _ & _ & _ & _ & Hcause & Hflag);
      [vm_compute; reflexivity|by eexists|discriminate|reflexivity|reflexivity|].
    exists g. split; [exact Hg|]. split; [exact Hcause|exact Hflag].
  - destruct (__copy___with_exceptions session (chained false) EG_KeyError)
      as (g & Hg & _ & _ & _ & _ & _ & _ & _ & Hcause & Hflag);
      [vm_compute; reflexivity|by eexists|discriminate|reflexivity|reflexivity|].
    exists g. split; [exact Hg|]. split; [exact Hcause|exact Hflag].
Defined.

(** C6: [copy.copy(ExceptionGroup("nothing", [], []))] raises instead of
    returning a copy.  [__new__] has made the group an instance of
    [ExceptionGroup[]], and [__copy__] calls that class with the exceptions
    of the group, of which there are none: the same [__new__] refuses. *)
Lemma copy_of_empty_group_raises :
  (ExceptionGroup_call ExceptionGroup "nothing" [] [] initial_state).1
    = Ok (Initialised empty_group) ∧
  classes after_empty_group !! __class__ empty_group = Some EG_empty ∧
  (__copy__ empty_group after_empty_group).1
    = Raise (TypeError EmptySpecialisation).
Proof. vm_compute. done. Qed.

(** *** More of the matcher *)

(** A second family: [class Other(ExceptionGroup)] and [Other[KeyError]]. *)
Definition Other_root : group_class :=
  GroupCls "Other" [GroupClass 0] (GroupClass 2) true None.
Definition Other_KeyError : group_class :=
  GroupCls "Other[KeyError]" [GroupClass 2] (GroupClass 2) false (Some [KeyError]).
Definition two_families : list group_class :=
  [EG_root; EG_KeyError; Other_root; Other_KeyError].

(** [ExceptionGroup[KeyError]], [ExceptionGroup[KeyError, ...]] and
    [ExceptionGroup[KeyError, RuntimeError]]. *)
Definition EG_KeyError_open : group_class :=
  GroupCls "ExceptionGroup[KeyError, ...]" [GroupClass 0] (GroupClass 0) true
           (Some [KeyError]).
Definition EG_open : group_class :=
  GroupCls "ExceptionGroup[, ...]" [GroupClass 0] (GroupClass 0) true (Some []).
Definition with_open : list group_class :=
  [EG_root; EG_KeyError; EG_KeyError_open; EG_KeyError_RuntimeError; EG_open].

Lemma subclasscheck_outside_family_witness :
  __subclasscheck__ two_families 1 (PlainClass KeyError) = Ok false ∧
  __subclasscheck__ two_families 1 (GroupClass 3) = Ok false.
Proof.
  destruct (subclasscheck_outside_family two_families 1 EG_KeyError eq_refl)
    as [Hplain Hother].
  split; [apply Hplain|]. by apply (Hother 3 Other_KeyError).
Defined.

Lemma subclasscheck_base_case_raises_witness :
  __subclasscheck__ with_open 1 (GroupClass 0) = Raise (TypeError NotIterable).
Proof.
  apply (subclasscheck_base_case_raises with_open 1 0 EG_KeyError EG_root [KeyError]);
    [reflexivity..|]. by left.
Defined.

Lemma subclasscheck_no_members_witness :
  __subclasscheck__ with_open 4 (GroupClass 0) = Ok true ∧
  __subclasscheck__ (classes session) 1 (GroupClass 2) = Ok false.
Proof.
  split.
  - apply (subclasscheck_no_members with_open 4 0 EG_open EG_root); reflexivity.
  - destruct (subclasscheck_no_members (classes session) 1 2 EG_empty EG_KeyError)
      as [_ Hexact];
      [vm_compute; reflexivity|vm_compute; reflexivity|reflexivity|reflexivity|].
    exact (Hexact eq_refl [KeyError] eq_refl).
Defined.

Lemma _subclasscheck_specialization_sets_witness :
  _subclasscheck_specialization EG_RuntimeError_LookupError EG_KeyError_RuntimeError
  = _subclasscheck_specialization
      (GroupCls "f" [] (GroupClass 0) false (Some [LookupError; RuntimeError; LookupError]))
      (GroupCls "v" [] (GroupClass 0) true (Some [RuntimeError; KeyError])).
Proof.
  apply (_subclasscheck_specialization_sets _ _ _ _
           [RuntimeError; LookupError] [LookupError; RuntimeError; LookupError]
           [KeyError; RuntimeError] [RuntimeError; KeyError]);
    [reflexivity..| |]; intros k; rewrite !list_elem_of_In; simpl; tauto.
Defined.

Lemma subclasscheck_inclusive_weaker_witness :
  __subclasscheck__ with_open 2 (GroupClass 1) = Ok true.
Proof.
  apply (subclasscheck_inclusive_weaker with_open 1 2 1
           EG_KeyError EG_KeyError_open EG_KeyError); reflexivity.
Defined.

Lemma subclasscheck_same_members_witness :
  __subclasscheck__ with_open 1 (GroupClass 2) = Ok true ∧
  __subclasscheck__ with_open 2 (GroupClass 1) = Ok true.
Proof.
  by apply (subclasscheck_same_members with_open 1 2 EG_KeyError EG_KeyError_open
              [KeyError] [KeyError]).
Defined.

Lemma subclasscheck_transitive_witness :
  __subclasscheck__ (classes session) 4 (GroupClass 5) = Ok true.
Proof.
  apply (subclasscheck_transitive (classes session) 4 3 5
           EG_RuntimeError_LookupError EG_KeyError_RuntimeError
           (GroupCls "ExceptionGroup[KeyError, RuntimeError, ...]" [GroupClass 0]
                     (GroupClass 0) true (Some [KeyError; RuntimeError])));
    [vm_compute; reflexivity..|by left|vm_compute; reflexivity|vm_compute; reflexivity].
Defined.

(** Through an inclusive class into an exact one the check is not
    transitive: [ExceptionGroup[KeyError, ...]] passes for
    [ExceptionGroup[KeyError]], [ExceptionGroup[KeyError, RuntimeError]] for
    [ExceptionGroup[KeyError, ...]], but not for [ExceptionGroup[KeyError]]. *)
Example subclasscheck_not_transitive :
  __subclasscheck__ with_open 1 (GroupClass 2) = Ok true ∧
  __subclasscheck__ with_open 2 (GroupClass 3) = Ok true ∧
  __subclasscheck__ with_open 1 (GroupClass 3) = Ok false.
Proof. vm_compute. done. Qed.

(** *** More of the registry *)

Definition children_open : list (pyobj (Cls:=builtin)) :=
  [ClassObj KeyError; Ellipsis; ClassObj KeyError].
Definition after_open : state :=
  run (__getitem__ ExceptionGroup (Tuple children_open)) initial_state.
Definition after_open_exact : state :=
  run (__getitem__ ExceptionGroup (Tuple [ClassObj KeyError])) after_open.

Lemma __getitem___Ellipsis_witness :
  __getitem__ ExceptionGroup (Single Ellipsis) initial_state
    = (Ok ExceptionGroup, initial_state) ∧
  (∀ children a s',
     __getitem__ ExceptionGroup (Tuple children) initial_state = (Ok a, s') →
     a ≠ ExceptionGroup).
Proof.
  apply (__getitem___Ellipsis initial_state ExceptionGroup EG_root wf_initial_state).
  reflexivity.
Defined.

Lemma __getitem___describes_witness :
  ∃ c, classes after_open !! 1 = Some c ∧
       (∀ k, k ∈ members c ↔ ClassObj k ∈ children_open) ∧
       NoDup (members c) ∧
       (inclusive c = true ↔ Ellipsis ∈ children_open) ∧
       (_specs_cache initial_state !! frozenset children_open = None →
        1 = length (classes initial_state) ∧
        __bases__ c = [GroupClass ExceptionGroup] ∧
        base_case c = GroupClass ExceptionGroup).
Proof.
  apply (__getitem___describes initial_state ExceptionGroup children_open 1 after_open
           reachable_import).
  apply injective_projections; [vm_compute; reflexivity|reflexivity].
Defined.

Lemma __getitem___different_objects_witness : 1 ≠ 2.
Proof.
  apply (__getitem___different_objects initial_state ExceptionGroup
           children_open [ClassObj KeyError] 1 after_open 2 after_open_exact
           wf_initial_state).
  - apply (bool_decide_unpack _). by vm_compute.
  - apply injective_projections; [vm_compute; reflexivity|reflexivity].
  - apply injective_projections; [vm_compute; reflexivity|reflexivity].
Defined.

Lemma __getitem___Single_Tuple_witness :
  ∃ a s1,
    __getitem__ ExceptionGroup (Single (ClassObj KeyError)) initial_state = (Ok a, s1) ∧
    __getitem__ ExceptionGroup (Tuple [ClassObj KeyError]) s1 = (Ok a, s1).
Proof.
  apply (__getitem___Single_Tuple initial_state ExceptionGroup EG_root KeyError);
    reflexivity.
Defined.

(** *** More of construction, copy and display *)

Lemma __init___first_offender_witness :
  __init__ 1 "error" [a_RuntimeError; a_KeyboardInterrupt; a_str] ["only one"]
  = Raise (TypeError (ExpectedExceptionObject a_KeyboardInterrupt)).
Proof.
  apply (__init___first_offender 1 "error" [a_RuntimeError] a_KeyboardInterrupt [a_str]);
    reflexivity.
Defined.

Lemma call_rejects_other_objects_witness :
  ExceptionGroup_call ExceptionGroup "error" [a_RuntimeError; a_str]
    ["RuntimeError"; "error2"] initial_state
  = (Raise (TypeError ExpectedTupleOfSubclasses), initial_state).
Proof.
  apply (call_rejects_other_objects initial_state ExceptionGroup EG_root "error"
           [a_RuntimeError; a_str] ["RuntimeError"; "error2"] a_str);
    [reflexivity|reflexivity|by right; left|reflexivity].
Defined.

Lemma call_caches_class_witness :
  is_Some (_specs_cache
             (ExceptionGroup_call ExceptionGroup "m" [a_KeyboardInterrupt] ["s"]
                initial_state).2
           !! list_to_set [Kind KeyboardInterrupt]) ∧
  ((∃ exc, (ExceptionGroup_call ExceptionGroup "m" [a_KeyboardInterrupt] ["s"]
              initial_state).1
           = Raise (TypeError (ExpectedExceptionObject exc))) ∨
   (∃ obj, (ExceptionGroup_call ExceptionGroup "m" [a_KeyboardInterrupt] ["s"]
              initial_state).1 = Ok obj ∧
           skipped ExceptionGroup obj
             (ExceptionGroup_call ExceptionGroup "m" [a_KeyboardInterrupt] ["s"]
                initial_state).2)).
Proof.
  destruct (call_caches_class initial_state ExceptionGroup EG_root "m"
              [a_KeyboardInterrupt] ["s"]) as [Hcache Hraise];
    [apply reachable_import|reflexivity..|].
  split; [exact Hcache|].
  destruct (Hraise eq_refl) as [(exc & _ & _ & Heq)|Hskip]; [left|by right].
  by exists exc.
Defined.

Definition filter_Lookup_Runtime : list (pyobj (Cls:=builtin)) :=
  [ClassObj LookupError; ClassObj RuntimeError].
Definition after_filter : state :=
  run (__getitem__ ExceptionGroup (Tuple filter_Lookup_Runtime)) after_raised.

(** [ExceptionGroup("message", [KeyError(), RuntimeError()], ...)] against
    [except ExceptionGroup[LookupError, RuntimeError]]. *)
Lemma caught_iff_witness :
  __instancecheck__ (classes after_filter) 2 (GroupClass (__class__ raised)) = Ok true ↔
    (∀ k, ClassObj k ∈ filter_Lookup_Runtime →
       ∃ exc, exc ∈ [a_KeyError; a_RuntimeError] ∧ isinstance exc k = true) ∧
    (Ellipsis ∈ filter_Lookup_Runtime ∨
     ∀ exc, exc ∈ [a_KeyError; a_RuntimeError] →
       ∃ k, ClassObj k ∈ filter_Lookup_Runtime ∧ isinstance exc k = true).
Proof.
  destruct (caught_iff initial_state ExceptionGroup "message"
              [a_KeyError; a_RuntimeError] ["first"; "second"] (Initialised raised)
              after_raised ExceptionGroup filter_Lookup_Runtime 2 after_filter
              reachable_import)
    as (f & v & _ & _ & Hiff & Hbase).
  - by exists EG_root.
  - apply injective_projections; [vm_compute; reflexivity|reflexivity].
  - apply injective_projections; [vm_compute; reflexivity|reflexivity].
  - pose proof (Hbase wf_initial_state eq_refl) as Heq.
    split.
    + intros Hcheck. by apply Hiff in Hcheck as (_ & ? & ?).
    + intros [Hcov Hacc]. apply Hiff. split; [exact Heq|]. by split.
Defined.

Example caught_by_Lookup_Runtime :
  __instancecheck__ (classes after_filter) 2 (GroupClass (__class__ raised)) = Ok true.
Proof. vm_compute. reflexivity. Qed.

Lemma call_instance_of_base_case_witness :
  __instancecheck__ (classes after_raised) ExceptionGroup (GroupClass (__class__ raised))
  = Ok true.
Proof.
  destruct (call_instance_of_base_case initial_state ExceptionGroup EG_root "message"
              [a_KeyError; a_RuntimeError] ["first"; "second"] (Initialised raised)
              after_raised reachable_import)
    as (v & _ & Hcheck & Hbase); [reflexivity..| |].
  - apply injective_projections; [vm_compute; reflexivity|reflexivity].
  - rewrite bool_decide_true in Hcheck by exact (Hbase wf_initial_state).
    exact Hcheck.
Defined.

(** Also the call that raises on a [KeyboardInterrupt()] leaves a
    well-formed state. *)
Lemma call_wf_witness :
  wf (ExceptionGroup_call ExceptionGroup "m" [a_KeyboardInterrupt] ["s"]
        initial_state).2 ExceptionGroup.
Proof.
  apply (call_wf initial_state ExceptionGroup ExceptionGroup EG_root "m"
           [a_KeyboardInterrupt] ["s"] wf_initial_state); [reflexivity|by left].
Defined.

Lemma __copy___empty_raises_witness :
  __copy__ empty_group after_empty_group
  = (Raise (TypeError EmptySpecialisation), after_empty_group).
Proof.
  apply (__copy___empty_raises after_empty_group empty_group EG_empty);
    [vm_compute; reflexivity|by eexists|reflexivity].
Defined.

Lemma __copy___idempotent_witness :
  __copy__ (chained false) session = (Ok (Initialised (chained false)), session).
Proof.
  destruct (__copy___idempotent session (chained false) EG_KeyError
              (Initialised (chained false)) session)
    as (g & Hg & Hcopy & _); [vm_compute; reflexivity|by eexists| |].
  - rewrite (__copy___specialized session (chained false) EG_KeyError a_KeyError []);
      [reflexivity|vm_compute; reflexivity|by eexists|reflexivity].
  - injection Hg as <-. exact Hcopy.
Defined.

(** *** A second base case *)

(** [ExceptionGroup[KeyError]], then [class Other(ExceptionGroup): pass]: the
    two classes get the addresses 1 and 2. *)
Definition with_Other : state :=
  run (ExceptionGroupMeta "Other" [GroupClass ExceptionGroup] None true)
  (run (__getitem__ ExceptionGroup (Single (ClassObj KeyError))) initial_state).

Lemma reachable_with_Other : reachable with_Other.
Proof.
  apply (reachable_class _ "Other" [GroupClass ExceptionGroup] None true ExceptionGroup).
  - apply reachable_getitem, reachable_import.
  - by left.
  - exists EG_root. vm_compute. reflexivity.
Qed.

(** [Other[KeyError]] is the cached [ExceptionGroup[KeyError]]: the cache is
    the one of [ExceptionGroup], and the key does not tell the class that is
    subscripted. *)
Example Other_subscript_hits_the_cache :
  (__getitem__ 2 (Single (ClassObj KeyError)) with_Other).1 = Ok 1 ∧
  classes with_Other !! 1 = Some EG_KeyError.
Proof. vm_compute. done. Qed.

(** [Other("m", [KeyError()], [])] is therefore an object of class
    [ExceptionGroup[KeyError]], which does not derive from [Other]: [__init__]
    is not run on it, and the missing source, for which
    [ExceptionGroup("m", [KeyError()], [])] raises, goes unnoticed. *)
Example Other_call_skips___init__ :
  (ExceptionGroup_call 2 "m" [a_KeyError] [] with_Other).1
    = Ok (Uninitialised 1 None None None false) ∧
  (ExceptionGroup_call ExceptionGroup "m" [a_KeyError] [] with_Other).1
    = Raise (ValueError 0 1).
Proof. vm_compute. done. Qed.

(** The other way round: [class Other(ExceptionGroup): pass], then
    [Other[KeyError]] (addresses 1 and 2).  Now
    [ExceptionGroup("m", [KeyError()], ["s"])] is a group of class
    [Other[KeyError]], whose [base_case] is [Other]: as a filter,
    [ExceptionGroup] does not accept it. *)
Definition Other_first : state :=
  run (__getitem__ 1 (Single (ClassObj KeyError)))
  (run (ExceptionGroupMeta "Other" [GroupClass ExceptionGroup] None true) initial_state).

Example ExceptionGroup_call_after_Other :
  (ExceptionGroup_call ExceptionGroup "m" [a_KeyError] ["s"] Other_first).1
    = Ok (Initialised (ExcGroup 2 ("m", [a_KeyError], ["s"]) "m" [a_KeyError] ["s"]
                                None None None false)) ∧
  classes Other_first !! 2
    = Some (GroupCls "Other[KeyError]" [GroupClass 1] (GroupClass 1) false
                     (Some [KeyError])) ∧
  __instancecheck__ (classes Other_first) ExceptionGroup (GroupClass 2) = Ok false.
Proof. vm_compute. done. Qed.

Lemma __str___app_witness :
  __str__ raised = __str__ (chained true) +:+ ", " +:+
                   __str__ (ExcGroup 2 ("m", [a_RuntimeError], ["s"]) "m"
                              [a_RuntimeError] ["s"] None None None false).
Proof. by apply __str___app. Defined.

Example str_of_raised : __str__ raised = "KeyError(), RuntimeError('B')".
Proof. reflexivity. Qed.

Example repr_of_raised :
  __repr__ raised = "<ExceptionGroup: KeyError(), RuntimeError('B')>".
Proof. reflexivity. Qed.

End Examples.
